(** * Canvas blur examples: a shallow embedding of the four canvas-image.js scripts

    The repository holds successive versions of one script that blurs an
    image drawn on an HTML canvas.  Versions 1 and 2 average pixels by hand
    over the flat RGBA buffer of an [ImageData] object; versions 3 and 5
    stack translucent copies of the canvas with the native [drawImage].

    The embedding follows the scripts function by function:
    - [JS]      the fragment of JavaScript values the scripts compute with
                (numbers with NaN and the infinities, [undefined], exceptions,
                [Uint8ClampedArray] reads and writes);
    - [Canvas]  the part of the canvas API the scripts call;
    - [V1], [V2], [V3], [V5]  one module per version, with the source's
                names; [Native] holds the drawing state versions 3 and 5 share.
    The properties follow the model.

    Numbers.  A JavaScript number is an IEEE double.  Every number these
    scripts compute is either an integer far below 2^53 (a byte, a sum of at
    most eight bytes, a count, a coordinate, an index) or the quotient of
    such a sum by a count between 1 and 8.  Integers are exact in doubles; a
    quotient is modelled by the exact rational.  The only consumer of a
    quotient is the conversion to a byte on storing, and the double nearest
    to s/n converts to the same byte as s/n itself: s/n is a half-integer
    only if it is representable, and otherwise it lies at least 1/16 away
    from every half-integer.  The two zeros of IEEE are identified. *)

From Stdlib Require Import ZArith QArith Qround Lia.
From stdpp Require Import base decidable list.

#[local] Open Scope Z_scope.

(** ** JavaScript values *)

Module JS.

(** A number: a finite value, NaN, or an infinity with its sign. *)
Inductive number : Type :=
| Fin (q : Q)
| NaN
| Infinity (negative : bool).

(** The scalar values the scripts handle. *)
Inductive value : Type :=
| Undefined
| Bool (b : bool)
| Num (n : number).

Definition of_Z (z : Z) : number := Fin (inject_Z z).

(** [ToNumber] of the language specification. *)
Definition ToNumber (v : value) : number :=
  match v with
  | Undefined => NaN
  | Bool b => of_Z (if b then 1 else 0)
  | Num n => n
  end.

(** [a + b] on numbers. *)
Definition add (a b : number) : number :=
  match a, b with
  | NaN, _ | _, NaN => NaN
  | Fin p, Fin q => Fin (p + q)%Q
  | Infinity s, Fin _ | Fin _, Infinity s => Infinity s
  | Infinity s, Infinity t => if Bool.eqb s t then Infinity s else NaN
  end.

Definition Qneg (q : Q) : bool := bool_decide (Qnum q < 0).
Definition Qzero (q : Q) : bool := bool_decide (Qnum q = 0).

(** [a / b] on numbers. *)
Definition div (a b : number) : number :=
  match a, b with
  | NaN, _ | _, NaN => NaN
  | Infinity _, Infinity _ => NaN
  | Infinity s, Fin q => Infinity (xorb s (Qneg q))
  | Fin _, Infinity _ => Fin 0%Q
  | Fin p, Fin q =>
      if Qzero q then (if Qzero p then NaN else Infinity (Qneg p))
      else Fin (p / q)%Q
  end.

(** The operator [+=] applied to a number and any value. *)
Definition add_value (a : number) (v : value) : number := add a (ToNumber v).

(** [ToUint8Clamp]: the conversion applied when a value is stored in a
    [Uint8ClampedArray]: NaN gives 0, the value is clamped to [0, 255] and
    rounded to the nearest integer, ties to the even one. *)
Definition ToUint8Clamp (n : number) : Z :=
  match n with
  | NaN => 0
  | Infinity negative => if negative then 0 else 255
  | Fin q =>
      if bool_decide (Qnum q <= 0) then 0
      else if Qle_bool 255%Q q then 255
      else
        let f := Qfloor q in
        match ((q - inject_Z f) ?= (1 # 2))%Q with
        | Lt => f
        | Gt => f + 1
        | Eq => if Z.even f then f else f + 1
        end
  end.

(** Exceptions and completions: a call returns normally or throws. *)
Inductive exn : Type := CoordinateError | IndexSizeError.

Inductive completion (A : Type) : Type :=
| Normal (a : A)
| Throw (e : exn).
Arguments Normal {A} a.
Arguments Throw {A} e.

Definition bind {A B} (c : completion A) (k : A -> completion B) : completion B :=
  match c with
  | Normal a => k a
  | Throw e => Throw e
  end.

(** [try { c } catch (e) { h e }]. *)
Definition try_catch {A} (c : completion A) (h : exn -> completion A) : completion A :=
  match c with
  | Normal a => Normal a
  | Throw e => h e
  end.

(** A [for] loop over the successive values [xs] of its counter, threading
    the state [s]; a throwing iteration ends the loop. *)
Fixpoint for_each {I S} (xs : list I) (body : I -> S -> completion S) (s : S)
  : completion S :=
  match xs with
  | [] => Normal s
  | x :: xs' => bind (body x s) (for_each xs' body)
  end.

(** The counter values of [for (i = lo; i < hi; i += 1)]. *)
Definition range (lo hi : Z) : list Z := seqZ lo (hi - lo).

(** Reading element [i] of a byte array: out of range gives [undefined]. *)
Definition get (data : list Z) (i : Z) : value :=
  if decide (i < 0) then Undefined
  else match data !! Z.to_nat i with
       | Some b => Num (of_Z b)
       | None => Undefined
       end.

(** Writing element [i] of a [Uint8ClampedArray]: the value is converted to
    a byte; a write out of range is ignored. *)
Definition set (data : list Z) (i : Z) (v : value) : list Z :=
  if decide (i < 0) then data
  else <[Z.to_nat i := ToUint8Clamp (ToNumber v)]> data.

(** Element [i] of a script-level array: [undefined] past its end. *)
Definition item (a : list value) (i : nat) : value := default Undefined (a !! i).

End JS.

Notation "'let!' x ':=' c 'in' k" := (JS.bind c (fun x => k))
  (at level 10, x name, c at level 100, k at level 200).

(** ** The canvas API *)

Module Canvas.

(** An [ImageData] object: its size and its RGBA byte buffer. *)
Record ImageData : Type := mkImageData {
  width : Z;
  height : Z;
  data : list Z
}.

(** [context.createImageData(sw, sh)]: a transparent black image; a zero
    size throws. *)
Definition createImageData (sw sh : Z) : JS.completion ImageData :=
  if decide (sw = 0 \/ sh = 0) then JS.Throw JS.IndexSizeError
  else JS.Normal (mkImageData (Z.abs sw) (Z.abs sh)
                    (replicate (Z.to_nat (Z.abs sw * Z.abs sh * 4)) 0)).

(** The array literal [[data[pos], data[pos + 1], data[pos + 2],
    data[pos + 3]]] both versions build when they read a pixel. *)
Definition pixel_at (data : list Z) (pos : Z) : list JS.value :=
  [ JS.get data pos; JS.get data (pos + 1); JS.get data (pos + 2); JS.get data (pos + 3) ].

(** The 2D context of versions 1 and 2: what the canvas shows. *)
Record Context : Type := mkContext {
  bitmap : list Z
}.

(** [context.putImageData(imageData, 0, 0)] on a canvas of the image's size.
    The canvas is taken to hold the bytes it is given; a browser may keep
    translucent pixels in another form and give back slightly different
    bytes. *)
Definition putImageData (ctx : Context) (imageData : ImageData) : Context :=
  mkContext (data imageData).

End Canvas.

(** ** Version 1 *)

Module V1.

(** The result of [getPixel]: the sentinel [false] or a four-element array. *)
Inductive pixel : Type :=
| JFalse
| JArray (a : list JS.value).

Module CanvasImageData.

(** The wrapper around an [ImageData]; its [data] field is the very array
    [imageData.data] and is not kept apart. *)
Record t : Type := mk {
  width : Z;
  height : Z;
  imageData : Canvas.ImageData
}.

(** [new CanvasImageData(imageData)]. *)
Definition new (imageData : Canvas.ImageData) : t :=
  mk (Canvas.width imageData) (Canvas.height imageData) imageData.

Definition convertCoordsToIndex (this : t) (x y : Z) : JS.completion Z :=
  if decide (x < 0 \/ x > width this \/ y < 0 \/ y > height this)
  then JS.Throw JS.CoordinateError
  else JS.Normal ((y * width this * 4) + (x * 4)).

Definition getPixel (this : t) (x y : Z) : JS.completion pixel :=
  JS.try_catch
    (let! pos := convertCoordsToIndex this x y in
     JS.Normal (JArray (Canvas.pixel_at (Canvas.data (imageData this)) pos)))
    (fun e => JS.Normal JFalse).

(** Storing into [this.imageData.data]. *)
Definition store (this : t) (i : Z) (v : JS.value) : t :=
  mk (width this) (height this)
     (Canvas.mkImageData (Canvas.width (imageData this))
        (Canvas.height (imageData this))
        (JS.set (Canvas.data (imageData this)) i v)).

(** [setPixel] returns [false] when the coordinates are refused and
    [undefined] otherwise, together with the updated object. *)
Definition setPixel (this : t) (x y : Z) (pixelValues : list JS.value)
  : JS.completion (JS.value * t) :=
  match convertCoordsToIndex this x y with
  | JS.Throw e => JS.Normal (JS.Bool false, this)
  | JS.Normal pos =>
      let this := store this pos (JS.item pixelValues 0) in
      let this := store this (pos + 1) (JS.item pixelValues 1) in
      let this := store this (pos + 2) (JS.item pixelValues 2) in
      let this := store this (pos + 3) (JS.item pixelValues 3) in
      JS.Normal (JS.Undefined, this)
  end.

End CanvasImageData.

(** The two image objects a call of [blur] works on, and which of them a
    reference designates.  [blur] allocates [newImage] once, before its
    first pass; from the end of that pass on [this.canvasImageData] is the
    same object as [newImage], and a pass then reads the buffer it writes. *)
Inductive ref : Type := Original | NewImage.

Record heap : Type := mkHeap {
  original : CanvasImageData.t;
  newImage : CanvasImageData.t;
  canvasImageData_ref : ref
}.

Definition deref (st : heap) : CanvasImageData.t :=
  match canvasImageData_ref st with
  | Original => original st
  | NewImage => newImage st
  end.

(** The running totals of the averaging loop. *)
Record totals : Type := mkTotals {
  totalOpacity : JS.number;
  totalRed : JS.number;
  totalGreen : JS.number;
  totalBlue : JS.number;
  numberOfPixels : Z
}.

Definition no_totals : totals := mkTotals (JS.of_Z 0) (JS.of_Z 0) (JS.of_Z 0) (JS.of_Z 0) 0.

(** The body of [if (pixel) { ... }]. *)
Definition accumulate (acc : totals) (pixel : list JS.value) : totals :=
  mkTotals
    (JS.add_value (totalOpacity acc) (JS.item pixel 0))
    (JS.add_value (totalRed acc) (JS.item pixel 1))
    (JS.add_value (totalGreen acc) (JS.item pixel 2))
    (JS.add_value (totalBlue acc) (JS.item pixel 3))
    (numberOfPixels acc + 1).

(** The array [pixelValue] built from the totals. *)
Definition average (acc : totals) : list JS.value :=
  [ JS.Num (JS.div (totalOpacity acc) (JS.of_Z (numberOfPixels acc)));
    JS.Num (JS.div (totalRed acc) (JS.of_Z (numberOfPixels acc)));
    JS.Num (JS.div (totalGreen acc) (JS.of_Z (numberOfPixels acc)));
    JS.Num (JS.div (totalBlue acc) (JS.of_Z (numberOfPixels acc))) ].

Module CanvasImage.

Record t : Type := mk {
  width : Z;
  height : Z;
  context : Canvas.Context;
  canvasImageData : CanvasImageData.t
}.

Definition redraw (this : t) : t :=
  mk (width this) (height this)
     (Canvas.putImageData (context this)
        (CanvasImageData.imageData (canvasImageData this)))
     (canvasImageData this).

(** The body of the two loops of [flipHorizontal]: reads the current image,
    writes [newImage]. *)
Definition flip_pixel (this : t) (y x : Z) (newImage : CanvasImageData.t)
  : JS.completion CanvasImageData.t :=
  let pos := - (x - width this) - 1 in
  let! pixel := CanvasImageData.getPixel (canvasImageData this) x y in
  match pixel with
  | JArray px =>
      let! r := CanvasImageData.setPixel newImage pos y px in
      JS.Normal (snd r)
  | JFalse => JS.Normal newImage
  end.

Definition flipHorizontal (this : t) : JS.completion t :=
  let! newData := Canvas.createImageData (width this) (height this) in
  let newImage := CanvasImageData.new newData in
  let! newImage :=
    JS.for_each (JS.range 0 (height this)) (fun y =>
      JS.for_each (JS.range 0 (width this)) (fun x => flip_pixel this y x))
      newImage in
  JS.Normal (redraw (mk (width this) (height this) (context this) newImage)).

(** The eight coordinate pairs of [surroundingPixels], in the order of the
    array literal. *)
Definition surroundingPixels (x y : Z) : list (Z * Z) :=
  [ (x - 1, y - 1);
    (x, y - 1);
    (x + 1, y - 1);
    (x - 1, y);
    (x * 1, y);
    (x - 1, y + 1);
    (x, y + 1);
    (x + 1, y + 1) ].

(** One round of the loop over [p]: fetch a pixel of the current image and
    add it to the totals when [getPixel] gave an array. *)
Definition sample (img : CanvasImageData.t) (c : Z * Z) (acc : totals)
  : JS.completion totals :=
  let! pixel := CanvasImageData.getPixel img (fst c) (snd c) in
  match pixel with
  | JArray px => JS.Normal (accumulate acc px)
  | JFalse => JS.Normal acc
  end.

(** The loop over [p]; [surroundingPixelsLength] is the length of the list. *)
Definition sum_surrounding (img : CanvasImageData.t) (x y : Z)
  : JS.completion totals :=
  JS.for_each (surroundingPixels x y) (sample img) no_totals.

(** The array [pixelValue] computed for the pixel at [(x, y)]. *)
Definition pixelValue (img : CanvasImageData.t) (x y : Z)
  : JS.completion (list JS.value) :=
  let! acc := sum_surrounding img x y in
  JS.Normal (average acc).

(** The body of the loop over [x]. *)
Definition blur_pixel (y x : Z) (st : heap) : JS.completion heap :=
  let! pv := pixelValue (deref st) x y in
  let! r := CanvasImageData.setPixel (newImage st) x y pv in
  JS.Normal (mkHeap (original st) (snd r) (canvasImageData_ref st)).

(** The body of the loop over [i]: one pass, then
    [this.canvasImageData = newImage]. *)
Definition blur_pass (this : t) (i : Z) (st : heap) : JS.completion heap :=
  let! st :=
    JS.for_each (JS.range 0 (height this)) (fun y =>
      JS.for_each (JS.range 0 (width this)) (fun x => blur_pixel y x)) st in
  JS.Normal (mkHeap (original st) (newImage st) NewImage).

Definition blur (this : t) (passes : Z) : JS.completion t :=
  let! newData := Canvas.createImageData (width this) (height this) in
  let st := mkHeap (canvasImageData this) (CanvasImageData.new newData) Original in
  let! st := JS.for_each (JS.range 0 passes) (blur_pass this) st in
  JS.Normal (redraw (mk (width this) (height this) (context this) (deref st))).

(** [new CanvasImage(element, image)] for an image of the given size and
    pixels: the canvas takes the size of the image, shows it, and the image
    data is read back from it. *)
Definition new (w h : Z) (pixels : list Z) : t :=
  mk w h (Canvas.mkContext pixels)
     (CanvasImageData.new (Canvas.mkImageData w h pixels)).

End CanvasImage.

End V1.

(** ** Version 2 *)

Module V2.

Inductive ref : Type := Original | NewImage.

(** The image [this.imageData] had on entry, the image [newImage] allocated
    once by [blur], and which of the two [this.imageData] designates. *)
Record heap : Type := mkHeap {
  original : Canvas.ImageData;
  newImage : Canvas.ImageData;
  imageData_ref : ref
}.

Definition deref (st : heap) : Canvas.ImageData :=
  match imageData_ref st with
  | Original => original st
  | NewImage => newImage st
  end.

Record totals : Type := mkTotals {
  totalOpacity : JS.number;
  totalRed : JS.number;
  totalGreen : JS.number;
  totalBlue : JS.number;
  numberOfPixels : Z
}.

Definition no_totals : totals := mkTotals (JS.of_Z 0) (JS.of_Z 0) (JS.of_Z 0) (JS.of_Z 0) 0.

Definition accumulate (acc : totals) (pixel : list JS.value) : totals :=
  mkTotals
    (JS.add_value (totalOpacity acc) (JS.item pixel 0))
    (JS.add_value (totalRed acc) (JS.item pixel 1))
    (JS.add_value (totalGreen acc) (JS.item pixel 2))
    (JS.add_value (totalBlue acc) (JS.item pixel 3))
    (numberOfPixels acc + 1).

Definition average (acc : totals) : list JS.value :=
  [ JS.Num (JS.div (totalOpacity acc) (JS.of_Z (numberOfPixels acc)));
    JS.Num (JS.div (totalRed acc) (JS.of_Z (numberOfPixels acc)));
    JS.Num (JS.div (totalGreen acc) (JS.of_Z (numberOfPixels acc)));
    JS.Num (JS.div (totalBlue acc) (JS.of_Z (numberOfPixels acc))) ].

Module CanvasImage.

Record t : Type := mk {
  width : Z;
  height : Z;
  context : Canvas.Context;
  imageData : Canvas.ImageData
}.

Definition redraw (this : t) : t :=
  mk (width this) (height this)
     (Canvas.putImageData (context this) (imageData this))
     (imageData this).

(** The eight buffer positions of [surroundingPixels]; [width] is the local
    variable of [blur], four times the width of the image. *)
Definition surroundingPixels (pos width : Z) : list Z :=
  [ pos - width - 4;
    pos - width;
    pos - width + 4;
    pos - 4;
    pos + 4;
    pos + width - 4;
    pos + width;
    pos + width + 4 ].

(** The test guarding a sample. *)
Definition in_buffer (imageDataLength sp : Z) : bool :=
  bool_decide (sp >= 0 /\ sp <= imageDataLength - 3).

(** One round of the loop over [p]. *)
Definition sample (data : list Z) (imageDataLength : Z) (acc : totals) (sp : Z)
  : totals :=
  if in_buffer imageDataLength sp then accumulate acc (Canvas.pixel_at data sp) else acc.

(** The loop over [p]. *)
Definition sum_surrounding (data : list Z) (imageDataLength width pos : Z) : totals :=
  foldl (sample data imageDataLength) no_totals (surroundingPixels pos width).

(** The array [pixelValue] computed for the pixel at buffer position [pos]. *)
Definition pixelValue (data : list Z) (imageDataLength width pos : Z) : list JS.value :=
  average (sum_surrounding data imageDataLength width pos).

(** The four stores into [newImage.data]. *)
Definition store_pixel (img : Canvas.ImageData) (pos : Z) (pv : list JS.value)
  : Canvas.ImageData :=
  let d := JS.set (Canvas.data img) pos (JS.item pv 0) in
  let d := JS.set d (pos + 1) (JS.item pv 1) in
  let d := JS.set d (pos + 2) (JS.item pv 2) in
  let d := JS.set d (pos + 3) (JS.item pv 3) in
  Canvas.mkImageData (Canvas.width img) (Canvas.height img) d.

(** The body of the loop over [pos]. *)
Definition blur_pixel (imageDataLength width : Z) (st : heap) (pos : Z) : heap :=
  let pv := pixelValue (Canvas.data (deref st)) imageDataLength width pos in
  mkHeap (original st) (store_pixel (newImage st) pos pv) (imageData_ref st).

(** The counter values of [for (pos = 0; pos < imageDataLength; pos += 4)]. *)
Definition positions (imageDataLength : Z) : list Z :=
  (fun k => 4 * k) <$> seqZ 0 ((imageDataLength + 3) `div` 4).

(** The body of the loop over [i]: one pass, then [this.imageData = newImage]. *)
Definition blur_pass (imageDataLength width : Z) (st : heap) (i : Z) : heap :=
  let st := foldl (blur_pixel imageDataLength width) st (positions imageDataLength) in
  mkHeap (original st) (newImage st) NewImage.

Definition blur (this : t) (passes : Z) : JS.completion t :=
  let imageDataLength := Z.of_nat (length (Canvas.data (imageData this))) in
  let width4 := width this * 4 in
  let! newImage := Canvas.createImageData (width this) (height this) in
  let st := mkHeap (imageData this) newImage Original in
  let st := foldl (blur_pass imageDataLength width4) st (JS.range 0 passes) in
  JS.Normal (redraw (mk (width this) (height this) (context this) (deref st))).

(** [new CanvasImage(element, image)] for an image of the given size and
    pixels. *)
Definition new (w h : Z) (pixels : list Z) : t :=
  mk w h (Canvas.mkContext pixels) (Canvas.mkImageData w h pixels).

End CanvasImage.

End V2.

(** ** Versions 3 and 5

    Both draw the canvas onto itself with a reduced [globalAlpha].  What
    [drawImage] does to the pixels is left to the browser: it is a
    parameter [compose], given the drawing state in force, the offset and
    the pixels.  The canvas has the size of a loaded image, for which
    [drawImage] does not throw. *)

Module Native.

Section Context2D.

Variable Bitmap : Type.
Variable Settings : Type.

(** The drawing state: [globalAlpha], every other attribute of the context
    (composite operation, transform, clip, styles, ...), and the pixels. *)
Record Context : Type := mkContext {
  globalAlpha : JS.number;
  settings : Settings;
  bitmap : Bitmap
}.

Variable compose : JS.number -> Settings -> Z -> Z -> Bitmap -> Bitmap.

(** [context.globalAlpha = a]. *)
Definition set_globalAlpha (a : JS.number) (ctx : Context) : Context :=
  mkContext a (settings ctx) (bitmap ctx).

(** [context.drawImage(element, x, y)] where [element] is the canvas of
    [context] itself. *)
Definition drawImage (x y : Z) (ctx : Context) : Context :=
  mkContext (globalAlpha ctx) (settings ctx)
    (compose (globalAlpha ctx) (settings ctx) x y (bitmap ctx)).

(** A [for] loop whose body cannot throw. *)
Definition loop {S} (xs : list Z) (body : Z -> S -> S) (s : S) : S :=
  foldl (fun s x => body x s) s xs.

End Context2D.

Arguments globalAlpha {Bitmap Settings} _.
Arguments settings {Bitmap Settings} _.
Arguments bitmap {Bitmap Settings} _.
Arguments set_globalAlpha {Bitmap Settings} a ctx.
Arguments drawImage {Bitmap Settings} compose x y ctx.

End Native.

Module V3.

Section Blur.

Context {Bitmap Settings : Type}.
Variable compose : JS.number -> Settings -> Z -> Z -> Bitmap -> Bitmap.

Definition blur (context : Native.Context Bitmap Settings) (passes : Z)
  : Native.Context Bitmap Settings :=
  let context := Native.set_globalAlpha (JS.Fin (1 # 8)) context in
  let context :=
    Native.loop (JS.range 1 (passes + 1)) (fun i =>
      Native.loop (JS.range (-1) 2) (fun y =>
        Native.loop (JS.range (-1) 2) (fun x =>
          Native.drawImage compose x y))) context in
  Native.set_globalAlpha (JS.Fin 1) context.

End Blur.

End V3.

Module V5.

Section Blur.

Context {Bitmap Settings : Type}.
Variable compose : JS.number -> Settings -> Z -> Z -> Bitmap -> Bitmap.

Definition blur (context : Native.Context Bitmap Settings) (strength : Z)
  : Native.Context Bitmap Settings :=
  let context := Native.set_globalAlpha (JS.Fin (1 # 2)) context in
  let context :=
    Native.loop (JS.range (- strength) (strength + 1)) (fun y =>
      Native.loop (JS.range (- strength) (strength + 1)) (fun x =>
        Native.drawImage compose x y)) context in
  Native.set_globalAlpha (JS.Fin 1) context.

End Blur.

End V5.

(** * Properties *)

(** ** Sample images *)

(** The image object wrapping a buffer [d] of a w x h image. *)
Definition wrap (w h : Z) (d : list Z) : V1.CanvasImageData.t :=
  V1.CanvasImageData.new (Canvas.mkImageData w h d).

(** A 2x2 image whose sixteen bytes are 1 .. 16. *)
Definition image_2x2 : V1.CanvasImageData.t :=
  wrap 2 2 [1; 2; 3; 4; 5; 6; 7; 8; 9; 10; 11; 12; 13; 14; 15; 16].

(** A 1x1 image. *)
Definition image_1x1 : V1.CanvasImageData.t :=
  wrap 1 1 [10; 20; 30; 40].

(** A 100x100 image, all zero. *)
Definition image_100x100 : V1.CanvasImageData.t :=
  wrap 100 100 (replicate (Z.to_nat 40000) 0).

(** ** Version 1: coordinates and single pixels *)

Section V1_pixels.

Import V1 V1.CanvasImageData.

(** The test of [convertCoordsToIndex], as it is written. *)
Definition refused (this : t) (x y : Z) : Prop :=
  x < 0 \/ x > width this \/ y < 0 \/ y > height this.

Lemma convertCoordsToIndex_refused this x y :
  refused this x y -> convertCoordsToIndex this x y = JS.Throw JS.CoordinateError.
Proof. intros H. unfold convertCoordsToIndex. by rewrite decide_True. Qed.

Lemma convertCoordsToIndex_accepted this x y :
  ~ refused this x y ->
  convertCoordsToIndex this x y = JS.Normal (y * width this * 4 + x * 4).
Proof. intros H. unfold convertCoordsToIndex. by rewrite decide_False. Qed.

Lemma refused_dec this x y : {refused this x y} + {~ refused this x y}.
Proof. unfold refused. exact (decide _). Qed.

(** C5.  For an in-range pair, [convertCoordsToIndex] returns
    [(y * width + x) * 4], the row-major index of the first byte of the
    pixel; on a 100x100 image the pair (34, 56) gives 22536. *)
Theorem convertCoordsToIndex_row_major :
  (forall this x y,
      0 <= x < width this -> 0 <= y < height this ->
      convertCoordsToIndex this x y = JS.Normal ((y * width this + x) * 4))
  /\ convertCoordsToIndex image_100x100 34 56 = JS.Normal 22536.
Proof.
  split; [|reflexivity].
  intros this x y Hx Hy.
  rewrite convertCoordsToIndex_accepted by (unfold refused; lia).
  f_equal. lia.
Qed.

Lemma convertCoordsToIndex_row_major_witness :
  convertCoordsToIndex image_2x2 1 1 = JS.Normal ((1 * width image_2x2 + 1) * 4).
Proof.
  apply (proj1 convertCoordsToIndex_row_major); simpl; lia.
Defined.

(** What [getPixel] returns, case by case on the test of
    [convertCoordsToIndex]. *)
Lemma getPixel_refused this x y :
  refused this x y -> getPixel this x y = JS.Normal JFalse.
Proof.
  intros H. unfold getPixel. by rewrite convertCoordsToIndex_refused.
Qed.

Lemma getPixel_accepted this x y :
  ~ refused this x y ->
  getPixel this x y =
    JS.Normal (JArray
      (Canvas.pixel_at (Canvas.data (imageData this)) (y * width this * 4 + x * 4))).
Proof.
  intros H. unfold getPixel. by rewrite convertCoordsToIndex_accepted.
Qed.

(** C2, at the failing input.  On the 2x2 image the pair (2, 0) has
    x = width and is out of range, yet [getPixel] does not return the
    sentinel: it returns the bytes of the pixel (0, 1), the start of the
    next row.  At (0, 2), y = height, it returns four [undefined]. *)
Theorem getPixel_at_width_not_false :
  width image_2x2 = 2 /\ height image_2x2 = 2
  /\ getPixel image_2x2 2 0 =
       JS.Normal (JArray [JS.Num (JS.of_Z 9); JS.Num (JS.of_Z 10);
                          JS.Num (JS.of_Z 11); JS.Num (JS.of_Z 12)])
  /\ getPixel image_2x2 0 2 =
       JS.Normal (JArray [JS.Undefined; JS.Undefined; JS.Undefined; JS.Undefined])
  /\ getPixel image_2x2 3 0 = JS.Normal JFalse.
Proof. repeat split. Qed.

(** The sentinel is returned exactly on the pairs the test refuses, which
    leaves out x = width and y = height. *)
Lemma getPixel_false_iff this x y :
  getPixel this x y = JS.Normal JFalse <-> refused this x y.
Proof.
  split; [|apply getPixel_refused].
  intros H. destruct (refused_dec this x y) as [|Hn]; [done|].
  rewrite getPixel_accepted in H by done. discriminate.
Qed.

Lemma setPixel_refused this x y pixelValues :
  refused this x y -> setPixel this x y pixelValues = JS.Normal (JS.Bool false, this).
Proof.
  intros H. unfold setPixel. by rewrite convertCoordsToIndex_refused.
Qed.

Lemma setPixel_accepted this x y pixelValues :
  ~ refused this x y ->
  setPixel this x y pixelValues =
    JS.Normal (JS.Undefined,
      let pos := y * width this * 4 + x * 4 in
      store (store (store (store this pos (JS.item pixelValues 0))
                      (pos + 1) (JS.item pixelValues 1))
               (pos + 2) (JS.item pixelValues 2))
        (pos + 3) (JS.item pixelValues 3)).
Proof.
  intros H. unfold setPixel. by rewrite convertCoordsToIndex_accepted.
Qed.

Lemma getPixel_normal this x y : exists p, getPixel this x y = JS.Normal p.
Proof.
  destruct (refused_dec this x y).
  - rewrite getPixel_refused by done. eauto.
  - rewrite getPixel_accepted by done. eauto.
Qed.

Lemma setPixel_normal this x y pixelValues :
  exists r, setPixel this x y pixelValues = JS.Normal r.
Proof.
  destruct (refused_dec this x y).
  - rewrite setPixel_refused by done. eauto.
  - rewrite setPixel_accepted by done. eauto.
Qed.

(** On an image whose buffer has the size of the image, an in-range pair
    gives the four bytes of its pixel. *)
Lemma getPixel_in_range (w h : Z) pixels x y :
  Z.of_nat (length pixels) = 4 * w * h ->
  0 <= x < w -> 0 <= y < h ->
  exists r g b a,
    getPixel (wrap w h pixels) x y
    = JS.Normal (JArray [JS.Num (JS.of_Z r); JS.Num (JS.of_Z g);
                         JS.Num (JS.of_Z b); JS.Num (JS.of_Z a)])
    /\ pixels !! Z.to_nat ((y * w + x) * 4) = Some r
    /\ pixels !! Z.to_nat ((y * w + x) * 4 + 1) = Some g
    /\ pixels !! Z.to_nat ((y * w + x) * 4 + 2) = Some b
    /\ pixels !! Z.to_nat ((y * w + x) * 4 + 3) = Some a.
Proof.
  intros Hlen Hx Hy.
  assert (0 <= (y * w + x) * 4 /\ (y * w + x) * 4 + 3 < 4 * w * h) as Hpos by nia.
  destruct (lookup_lt_is_Some_2 pixels (Z.to_nat ((y * w + x) * 4))) as [r Hr]; [lia|].
  destruct (lookup_lt_is_Some_2 pixels (Z.to_nat ((y * w + x) * 4 + 1))) as [g Hg]; [lia|].
  destruct (lookup_lt_is_Some_2 pixels (Z.to_nat ((y * w + x) * 4 + 2))) as [b Hb]; [lia|].
  destruct (lookup_lt_is_Some_2 pixels (Z.to_nat ((y * w + x) * 4 + 3))) as [a Ha]; [lia|].
  exists r, g, b, a. split; [|done].
  rewrite getPixel_accepted by (unfold refused; simpl; lia).
  unfold Canvas.pixel_at, wrap.
  cbn [new width imageData Canvas.data Canvas.width].
  replace (y * w * 4 + x * 4) with ((y * w + x) * 4) by lia.
  unfold JS.get. rewrite !decide_False by lia.
  by rewrite Hr, Hg, Hb, Ha.
Qed.

End V1_pixels.

(** ** Loops *)

Lemma loop_invariant {S} (P : S -> Prop) (body : Z -> S -> S) xs s :
  (forall x s, P s -> P (body x s)) -> P s -> P (Native.loop xs body s).
Proof.
  intros Hbody. unfold Native.loop. revert s.
  induction xs as [|x xs IH]; intros s Hs; simpl; [done|].
  apply IH, Hbody, Hs.
Qed.

(** ** Versions 3 and 5: the drawing state after [blur] *)

Section Native_blur.

Context {Bitmap Settings : Type}.
Variable compose : JS.number -> Settings -> Z -> Z -> Bitmap -> Bitmap.

Lemma drawImage_settings x y (ctx : Native.Context Bitmap Settings) :
  Native.settings (Native.drawImage compose x y ctx) = Native.settings ctx.
Proof. reflexivity. Qed.

Lemma drawImage_loops_settings xs ys (ctx : Native.Context Bitmap Settings) :
  Native.settings
    (Native.loop ys (fun y => Native.loop xs (fun x => Native.drawImage compose x y)) ctx)
  = Native.settings ctx.
Proof.
  apply (loop_invariant (fun c => Native.settings c = Native.settings ctx)); [|done].
  intros y c Hc.
  apply (loop_invariant (fun c => Native.settings c = Native.settings ctx)); [|done].
  intros x c' Hc'. by rewrite drawImage_settings.
Qed.

(** C10.  After [blur] of version 3 and of version 5, for every argument,
    [globalAlpha] is 1.0 and every other attribute of the context is what
    it was before the call. *)
Theorem blur_leaves_globalAlpha_one :
  forall (ctx : Native.Context Bitmap Settings) (n : Z),
    Native.globalAlpha (V3.blur compose ctx n) = JS.Fin 1
    /\ Native.settings (V3.blur compose ctx n) = Native.settings ctx
    /\ Native.globalAlpha (V5.blur compose ctx n) = JS.Fin 1
    /\ Native.settings (V5.blur compose ctx n) = Native.settings ctx.
Proof.
  intros ctx n. split; [reflexivity|]. split; [|split; [reflexivity|]].
  - unfold V3.blur. simpl.
    apply (loop_invariant
             (fun c => Native.settings c = Native.settings ctx)); [|done].
    intros i c Hc. by rewrite drawImage_loops_settings.
  - unfold V5.blur. simpl. by rewrite drawImage_loops_settings.
Qed.

End Native_blur.

(** ** The averaging formula *)

(** The formula in the words of the specification: the sum of a channel
    over the sampled pixels, divided by their number. *)
Module Spec.

Definition channel_sum (c : nat) (sampled : list (list JS.value)) : JS.number :=
  foldl JS.add_value (JS.of_Z 0) ((fun px => JS.item px c) <$> sampled).

Definition channel_average (c : nat) (sampled : list (list JS.value)) : JS.value :=
  JS.Num (JS.div (channel_sum c sampled) (JS.of_Z (Z.of_nat (length sampled)))).

Definition average_pixel (sampled : list (list JS.value)) : list JS.value :=
  [ channel_average 0 sampled; channel_average 1 sampled;
    channel_average 2 sampled; channel_average 3 sampled ].

End Spec.

(** The pixels version 1 samples around [(x, y)]: the arrays [getPixel]
    hands out for the pairs of [surroundingPixels] its test lets through. *)
Definition v1_pixel_read (img : V1.CanvasImageData.t) (c : Z * Z) : list JS.value :=
  Canvas.pixel_at (Canvas.data (V1.CanvasImageData.imageData img))
    (snd c * V1.CanvasImageData.width img * 4 + fst c * 4).

Definition v1_passes (img : V1.CanvasImageData.t) (c : Z * Z) : Prop :=
  ~ refused img (fst c) (snd c).

#[local] Instance v1_passes_dec img c : Decision (v1_passes img c).
Proof. unfold v1_passes, refused. apply _. Defined.

Definition v1_sampled (img : V1.CanvasImageData.t) (x y : Z) : list (list JS.value) :=
  v1_pixel_read img <$> filter (v1_passes img) (V1.CanvasImage.surroundingPixels x y).

(** The pixels version 2 samples around [pos]: those read at the positions
    of [surroundingPixels] that pass the bounds test. *)
Definition v2_sampled (data : list Z) (imageDataLength width pos : Z)
  : list (list JS.value) :=
  Canvas.pixel_at data
    <$> filter (fun sp => V2.CanvasImage.in_buffer imageDataLength sp = true)
          (V2.CanvasImage.surroundingPixels pos width).

(** The five running totals, read off the list of sampled pixels. *)
Lemma v1_accumulate_foldl sampled acc :
  foldl V1.accumulate acc sampled =
    V1.mkTotals
      (foldl JS.add_value (V1.totalOpacity acc) ((fun px => JS.item px 0) <$> sampled))
      (foldl JS.add_value (V1.totalRed acc) ((fun px => JS.item px 1) <$> sampled))
      (foldl JS.add_value (V1.totalGreen acc) ((fun px => JS.item px 2) <$> sampled))
      (foldl JS.add_value (V1.totalBlue acc) ((fun px => JS.item px 3) <$> sampled))
      (V1.numberOfPixels acc + Z.of_nat (length sampled)).
Proof.
  revert acc. induction sampled as [|px sampled IH]; intros acc; simpl.
  - destruct acc; simpl. f_equal. lia.
  - rewrite IH. simpl. f_equal. lia.
Qed.

Lemma v2_accumulate_foldl sampled acc :
  foldl V2.accumulate acc sampled =
    V2.mkTotals
      (foldl JS.add_value (V2.totalOpacity acc) ((fun px => JS.item px 0) <$> sampled))
      (foldl JS.add_value (V2.totalRed acc) ((fun px => JS.item px 1) <$> sampled))
      (foldl JS.add_value (V2.totalGreen acc) ((fun px => JS.item px 2) <$> sampled))
      (foldl JS.add_value (V2.totalBlue acc) ((fun px => JS.item px 3) <$> sampled))
      (V2.numberOfPixels acc + Z.of_nat (length sampled)).
Proof.
  revert acc. induction sampled as [|px sampled IH]; intros acc; simpl.
  - destruct acc; simpl. f_equal. lia.
  - rewrite IH. simpl. f_equal. lia.
Qed.

(** The loop over [p] of version 1 never throws and adds up exactly the
    sampled pixels. *)
Lemma v1_sample_loop img cs acc :
  JS.for_each cs (V1.CanvasImage.sample img) acc =
    JS.Normal (foldl V1.accumulate acc
                 (v1_pixel_read img <$> filter (v1_passes img) cs)).
Proof.
  revert acc. induction cs as [|c cs IH]; intros acc; simpl; [done|].
  unfold V1.CanvasImage.sample at 1.
  destruct (decide (v1_passes img c)) as [Hp|Hp].
  - rewrite filter_cons_True by done.
    rewrite getPixel_accepted by exact Hp. simpl. apply IH.
  - rewrite filter_cons_False by done.
    rewrite getPixel_refused; [simpl; apply IH|].
    unfold v1_passes in Hp. by destruct (refused_dec img c.1 c.2).
Qed.

Lemma v1_sum_surrounding img x y :
  V1.CanvasImage.sum_surrounding img x y =
    JS.Normal (foldl V1.accumulate V1.no_totals (v1_sampled img x y)).
Proof. apply v1_sample_loop. Qed.

(** The loop over [p] of version 2 adds up exactly the sampled pixels. *)
Lemma v2_sample_loop data len sps acc :
  foldl (V2.CanvasImage.sample data len) acc sps =
    foldl V2.accumulate acc
      (Canvas.pixel_at data
         <$> filter (fun sp => V2.CanvasImage.in_buffer len sp = true) sps).
Proof.
  revert acc. induction sps as [|sp sps IH]; intros acc; simpl; [done|].
  unfold V2.CanvasImage.sample at 2.
  destruct (V2.CanvasImage.in_buffer len sp) eqn:Hb.
  - rewrite filter_cons_True by done. simpl. apply IH.
  - rewrite filter_cons_False by (rewrite Hb; done). apply IH.
Qed.

Lemma v1_pixelValue_average img x y :
  V1.CanvasImage.pixelValue img x y =
    JS.Normal (Spec.average_pixel (v1_sampled img x y)).
Proof.
  unfold V1.CanvasImage.pixelValue. rewrite v1_sum_surrounding. simpl.
  rewrite v1_accumulate_foldl. reflexivity.
Qed.

Lemma v2_pixelValue_average data len width pos :
  V2.CanvasImage.pixelValue data len width pos =
    Spec.average_pixel (v2_sampled data len width pos).
Proof.
  unfold V2.CanvasImage.pixelValue, V2.CanvasImage.sum_surrounding.
  rewrite v2_sample_loop, v2_accumulate_foldl. reflexivity.
Qed.

(** ** Numbers and byte arrays *)

Lemma add_of_Z a b : JS.add (JS.of_Z a) (JS.of_Z b) = JS.of_Z (a + b).
Proof.
  unfold JS.of_Z, inject_Z. simpl. unfold Qplus. simpl. do 2 f_equal. lia.
Qed.

Lemma add_value_of_Z a b : JS.add_value (JS.of_Z a) (JS.Num (JS.of_Z b)) = JS.of_Z (a + b).
Proof. apply add_of_Z. Qed.

Lemma div_of_Z s n :
  n <> 0 -> JS.div (JS.of_Z s) (JS.of_Z n) = JS.Fin (inject_Z s / inject_Z n).
Proof.
  intros Hn. unfold JS.of_Z. simpl. unfold JS.Qzero. simpl.
  by rewrite bool_decide_eq_false_2.
Qed.

(** Storing a byte stores that byte. *)
Lemma ToUint8Clamp_byte b :
  0 <= b <= 255 -> JS.ToUint8Clamp (JS.of_Z b) = b.
Proof.
  intros Hb. unfold JS.of_Z, JS.ToUint8Clamp.
  change (Qnum (inject_Z b)) with b.
  case_bool_decide; [lia|].
  destruct (Qle_bool 255 (inject_Z b)) eqn:Hle.
  - apply Qle_bool_iff in Hle. unfold Qle in Hle. simpl in Hle. lia.
  - rewrite Qfloor_Z.
    replace ((inject_Z b - inject_Z b ?= 1 # 2)%Q) with Lt; [done|].
    symmetry. apply (proj1 (Qlt_alt _ _)). unfold Qlt. simpl. lia.
Qed.

Lemma get_lookup data i b :
  0 <= i -> data !! Z.to_nat i = Some b -> JS.get data i = JS.Num (JS.of_Z b).
Proof.
  intros Hi Hb. unfold JS.get. rewrite decide_False by lia. by rewrite Hb.
Qed.

Lemma length_set data i v : length (JS.set data i v) = length data.
Proof. unfold JS.set. case_decide; [done|]. apply length_insert. Qed.

Lemma set_lookup_eq data i v :
  0 <= i < Z.of_nat (length data) ->
  JS.set data i v !! Z.to_nat i = Some (JS.ToUint8Clamp (JS.ToNumber v)).
Proof.
  intros Hi. unfold JS.set. rewrite decide_False by lia.
  apply list_lookup_insert_eq. lia.
Qed.

Lemma set_lookup_ne data i v (j : nat) :
  Z.of_nat j <> i -> JS.set data i v !! j = data !! j.
Proof.
  intros Hj. unfold JS.set. case_decide; [done|].
  apply list_lookup_insert_ne. lia.
Qed.

(** The four stores of a pixel at [pos], as [setPixel] of version 1 and the
    loop body of version 2 both perform them. *)
Definition store4 (data : list Z) (w : Z * list JS.value) : list Z :=
  let d := JS.set data (fst w) (JS.item (snd w) 0) in
  let d := JS.set d (fst w + 1) (JS.item (snd w) 1) in
  let d := JS.set d (fst w + 2) (JS.item (snd w) 2) in
  JS.set d (fst w + 3) (JS.item (snd w) 3).

Lemma length_store4 data w : length (store4 data w) = length data.
Proof. unfold store4. by rewrite !length_set. Qed.

Lemma store4_lookup_out data w (j : nat) :
  Z.of_nat j < fst w \/ fst w + 3 < Z.of_nat j ->
  store4 data w !! j = data !! j.
Proof.
  intros Hj. unfold store4. by rewrite !set_lookup_ne by lia.
Qed.

Lemma store4_lookup_in data pos pv (c : nat) :
  0 <= pos -> (c < 4)%nat -> pos + Z.of_nat c < Z.of_nat (length data) ->
  store4 data (pos, pv) !! Z.to_nat (pos + Z.of_nat c)
  = Some (JS.ToUint8Clamp (JS.ToNumber (JS.item pv c))).
Proof.
  intros Hpos Hc Hlen. unfold store4. simpl.
  destruct c as [|[|[|[|c]]]]; [| | | |lia].
  - rewrite !set_lookup_ne by lia.
    replace (pos + Z.of_nat 0) with pos by lia. apply set_lookup_eq. lia.
  - rewrite !set_lookup_ne by lia.
    replace (pos + Z.of_nat 1) with (pos + 1) by lia.
    apply set_lookup_eq. rewrite length_set. lia.
  - rewrite !set_lookup_ne by lia.
    replace (pos + Z.of_nat 2) with (pos + 2) by lia.
    apply set_lookup_eq. rewrite !length_set. lia.
  - replace (pos + Z.of_nat 3) with (pos + 3) by lia.
    apply set_lookup_eq. rewrite !length_set. lia.
Qed.

Lemma length_foldl_store4 ws data : length (foldl store4 data ws) = length data.
Proof.
  revert data. induction ws as [|w ws IH]; intros data; simpl; [done|].
  by rewrite IH, length_store4.
Qed.

Lemma foldl_store4_lookup_out ws data (j : nat) :
  (forall w, w ∈ ws -> Z.of_nat j < fst w \/ fst w + 3 < Z.of_nat j) ->
  foldl store4 data ws !! j = data !! j.
Proof.
  revert data. induction ws as [|w ws IH]; intros data Hout; simpl; [done|].
  rewrite IH by (intros w' Hw'; apply Hout; by right).
  apply store4_lookup_out, Hout. by left.
Qed.

(** Writes at distinct pixel positions (multiples of four) do not overlap:
    after all of them, each written pixel holds the bytes of its write. *)
Lemma foldl_store4_lookup_in ws data pos pv (c : nat) :
  NoDup ws.*1 ->
  (forall w, w ∈ ws -> 0 <= fst w /\ fst w `mod` 4 = 0) ->
  (pos, pv) ∈ ws ->
  (c < 4)%nat -> pos + Z.of_nat c < Z.of_nat (length data) ->
  foldl store4 data ws !! Z.to_nat (pos + Z.of_nat c)
  = Some (JS.ToUint8Clamp (JS.ToNumber (JS.item pv c))).
Proof.
  revert data. induction ws as [|w ws IH]; intros data Hnd Hal Hin Hc Hlen.
  - by apply elem_of_nil in Hin.
  - cbn [fmap list_fmap foldl length] in *. apply NoDup_cons in Hnd as [Hnotin Hnd].
    apply elem_of_cons in Hin as [<-|Hin].
    + rewrite foldl_store4_lookup_out.
      * apply store4_lookup_in; [|done|done].
        apply (Hal (pos, pv)). by left.
      * intros w' Hw'.
        assert (fst w' <> pos) as Hne.
        { intros <-. apply Hnotin. apply list_elem_of_fmap. by exists w'. }
        destruct (Hal w') as [? ?]; [by right|].
        destruct (Hal (pos, pv)) as [? ?]; [by left|]. cbn [fst] in *.
        Z.div_mod_to_equations. lia.
    + apply IH; [done| |done|done|].
      * intros w' Hw'. apply Hal. by right.
      * by rewrite length_store4.
Qed.

(** ** The number of sampled pixels *)

(** Membership in a list given by its elements. *)
Ltac in_list :=
  apply elem_of_cons; first [left; reflexivity | right; in_list].

Lemma elem_of_positions len pos :
  pos ∈ V2.CanvasImage.positions len <-> pos `mod` 4 = 0 /\ 0 <= pos < len.
Proof.
  unfold V2.CanvasImage.positions. rewrite list_elem_of_fmap. split.
  - intros (k & -> & Hk). apply elem_of_seqZ in Hk.
    Z.div_mod_to_equations. lia.
  - intros [Hmod Hpos]. exists (pos `div` 4). split.
    + Z.div_mod_to_equations. lia.
    + apply elem_of_seqZ. Z.div_mod_to_equations. lia.
Qed.

Lemma in_buffer_true len sp :
  V2.CanvasImage.in_buffer len sp = true <-> 0 <= sp <= len - 3.
Proof.
  unfold V2.CanvasImage.in_buffer. rewrite bool_decide_eq_true. lia.
Qed.

Lemma length_filter_elem {A} (P : A -> Prop) `{forall a, Decision (P a)} (l : list A) a :
  a ∈ l -> P a -> (1 <= length (filter P l))%nat.
Proof.
  intros Hin HP.
  assert (a ∈ filter P l) as Hf by (by apply list_elem_of_filter).
  destruct (filter P l); [by apply elem_of_nil in Hf|simpl; lia].
Qed.

Lemma v1_numberOfPixels img x y :
  V1.numberOfPixels (foldl V1.accumulate V1.no_totals (v1_sampled img x y))
  = Z.of_nat (length (v1_sampled img x y)).
Proof. rewrite v1_accumulate_foldl. simpl. lia. Qed.

Lemma v2_numberOfPixels data len width pos :
  V2.numberOfPixels (V2.CanvasImage.sum_surrounding data len width pos)
  = Z.of_nat (length (v2_sampled data len width pos)).
Proof.
  unfold V2.CanvasImage.sum_surrounding.
  rewrite v2_sample_loop, v2_accumulate_foldl. simpl. unfold v2_sampled. lia.
Qed.

(** The pixel itself, listed as [x * 1, y], is always sampled in version 1. *)
Lemma v1_samples_own_pixel img x y :
  0 <= x < V1.CanvasImageData.width img ->
  0 <= y < V1.CanvasImageData.height img ->
  (1 <= length (v1_sampled img x y))%nat.
Proof.
  intros Hx Hy. unfold v1_sampled. rewrite length_fmap.
  apply (length_filter_elem _ _ (x * 1, y)).
  - unfold V1.CanvasImage.surroundingPixels. in_list.
  - unfold v1_passes, refused. simpl. lia.
Qed.

(** In version 2 some position of the list lies in the buffer: the next
    pixel, or the previous one, or on a 1x1 image the position
    [pos - width + 4], which is [pos] itself. *)
Lemma v2_samples_some_pixel (w h : Z) data pos :
  1 <= w -> 1 <= h ->
  pos ∈ V2.CanvasImage.positions (4 * w * h) ->
  (1 <= length (v2_sampled data (4 * w * h) (w * 4) pos))%nat.
Proof.
  intros Hw Hh Hpos. apply elem_of_positions in Hpos as [Hmod Hpos].
  unfold v2_sampled. rewrite length_fmap.
  destruct (decide (pos + 4 <= 4 * w * h - 3)) as [Hnext|Hnext].
  { apply (length_filter_elem _ _ (pos + 4)).
    - unfold V2.CanvasImage.surroundingPixels. in_list.
    - apply in_buffer_true. lia. }
  destruct (decide (0 <= pos - 4)) as [Hprev|Hprev].
  { apply (length_filter_elem _ _ (pos - 4)).
    - unfold V2.CanvasImage.surroundingPixels. in_list.
    - apply in_buffer_true. lia. }
  assert (pos = 0) as -> by (Z.div_mod_to_equations; lia).
  assert (w * h = 1) as Hwh by lia.
  assert (w = 1) as -> by nia.
  apply (length_filter_elem _ _ (0 - 1 * 4 + 4)).
  - unfold V2.CanvasImage.surroundingPixels. in_list.
  - apply in_buffer_true. lia.
Qed.

(** C8.  On an image with at least one pixel, at every pixel position, the
    count [numberOfPixels] is at least 1 when the averages are computed, in
    version 1 and in version 2: no channel is divided by zero. *)
Theorem numberOfPixels_positive :
  (forall (img : V1.CanvasImageData.t) (x y : Z),
      0 <= x < V1.CanvasImageData.width img ->
      0 <= y < V1.CanvasImageData.height img ->
      exists acc,
        V1.CanvasImage.sum_surrounding img x y = JS.Normal acc
        /\ 1 <= V1.numberOfPixels acc)
  /\ (forall (this : V2.CanvasImage.t) (pos : Z),
      let data := Canvas.data (V2.CanvasImage.imageData this) in
      let imageDataLength := Z.of_nat (length data) in
      let width := V2.CanvasImage.width this * 4 in
      1 <= V2.CanvasImage.width this ->
      1 <= V2.CanvasImage.height this ->
      imageDataLength = 4 * V2.CanvasImage.width this * V2.CanvasImage.height this ->
      pos ∈ V2.CanvasImage.positions imageDataLength ->
      1 <= V2.numberOfPixels
             (V2.CanvasImage.sum_surrounding data imageDataLength width pos)).
Proof.
  split.
  - intros img x y Hx Hy. eexists. split; [apply v1_sum_surrounding|].
    rewrite v1_numberOfPixels.
    pose proof (v1_samples_own_pixel img x y Hx Hy). lia.
  - intros this pos data len width Hw Hh Hlen Hpos.
    rewrite v2_numberOfPixels. subst width. rewrite Hlen in *.
    pose proof (v2_samples_some_pixel _ _ data pos Hw Hh Hpos). lia.
Qed.

Lemma numberOfPixels_positive_witness :
  (exists acc,
      V1.CanvasImage.sum_surrounding image_1x1 0 0 = JS.Normal acc
      /\ 1 <= V1.numberOfPixels acc)
  /\ 1 <= V2.numberOfPixels
            (V2.CanvasImage.sum_surrounding [10; 20; 30; 40] 4 4 0).
Proof.
  split.
  - apply (proj1 numberOfPixels_positive image_1x1 0 0); simpl; lia.
  - apply (proj2 numberOfPixels_positive
             (V2.CanvasImage.new 1 1 [10; 20; 30; 40]) 0); simpl; try lia.
    in_list.
Defined.

(** ** Buffer accesses *)

(** Version 2: a position that passes the bounds test is a whole pixel of
    the buffer, and so is every position the loop over [pos] writes. *)
Lemma v2_accesses_inside_buffer (w h : Z) pos :
  1 <= w -> 1 <= h ->
  pos ∈ V2.CanvasImage.positions (4 * w * h) ->
  (0 <= pos /\ pos + 3 < 4 * w * h)
  /\ forall sp,
       sp ∈ V2.CanvasImage.surroundingPixels pos (w * 4) ->
       V2.CanvasImage.in_buffer (4 * w * h) sp = true ->
       0 <= sp /\ sp + 3 < 4 * w * h.
Proof.
  intros Hw Hh Hpos. apply elem_of_positions in Hpos as [Hmod Hpos].
  split; [Z.div_mod_to_equations; lia|].
  intros sp Hsp Hb. apply in_buffer_true in Hb.
  assert (sp `mod` 4 = 0) as Hsp4.
  { unfold V2.CanvasImage.surroundingPixels in Hsp.
    repeat (apply elem_of_cons in Hsp as [->|Hsp]);
      [..|by apply elem_of_nil in Hsp]; Z.div_mod_to_equations; lia. }
  Z.div_mod_to_equations. lia.
Qed.

(** C3, at the failing input.  In version 1 the step of [blur] for the only
    pixel of a 1x1 image samples the pair (0, 1); [convertCoordsToIndex]
    lets it through and gives index 4, past the four bytes of the buffer,
    and [getPixel] reads [undefined] at 4, 5, 6 and 7.  The totals become
    NaN and the pass stores 0 in every channel. *)
Theorem v1_blur_reads_past_buffer :
  (0, 1) ∈ V1.CanvasImage.surroundingPixels 0 0
  /\ length (Canvas.data (V1.CanvasImageData.imageData image_1x1)) = 4%nat
  /\ V1.CanvasImageData.convertCoordsToIndex image_1x1 0 1 = JS.Normal 4
  /\ V1.CanvasImageData.getPixel image_1x1 0 1 =
       JS.Normal (V1.JArray [JS.Undefined; JS.Undefined; JS.Undefined; JS.Undefined])
  /\ v1_sampled image_1x1 0 0 =
       [ [JS.Num (JS.of_Z 10); JS.Num (JS.of_Z 20); JS.Num (JS.of_Z 30); JS.Num (JS.of_Z 40)];
         [JS.Undefined; JS.Undefined; JS.Undefined; JS.Undefined];
         [JS.Undefined; JS.Undefined; JS.Undefined; JS.Undefined] ]
  /\ V1.CanvasImage.pixelValue image_1x1 0 0 =
       JS.Normal [JS.Num JS.NaN; JS.Num JS.NaN; JS.Num JS.NaN; JS.Num JS.NaN]
  /\ V1.CanvasImage.blur (V1.CanvasImage.new 1 1 [10; 20; 30; 40]) 1 =
       JS.Normal (V1.CanvasImage.new 1 1 [0; 0; 0; 0]).
Proof.
  split; [in_list|]. repeat split.
Qed.

(** ** Version 2: the first pass *)

Lemma createImageData_normal (w h : Z) :
  1 <= w -> 1 <= h ->
  Canvas.createImageData w h =
    JS.Normal (Canvas.mkImageData w h (replicate (Z.to_nat (4 * w * h)) 0)).
Proof.
  intros Hw Hh. unfold Canvas.createImageData.
  rewrite decide_False by lia. rewrite !Z.abs_eq by lia.
  do 3 f_equal. lia.
Qed.

Lemma NoDup_positions len : NoDup (V2.CanvasImage.positions len).
Proof.
  unfold V2.CanvasImage.positions.
  apply NoDup_fmap_2_strong; [|apply NoDup_seqZ].
  intros a b _ _ Hab. lia.
Qed.

(** While [this.imageData] is still the original image, the loop over
    [pos] only stores into [newImage], each pixel computed from the
    original. *)
Lemma v2_first_pass_foldl len width ps orig new :
  foldl (V2.CanvasImage.blur_pixel len width) (V2.mkHeap orig new V2.Original) ps
  = V2.mkHeap orig
      (Canvas.mkImageData (Canvas.width new) (Canvas.height new)
         (foldl store4 (Canvas.data new)
            ((fun pos =>
                (pos, V2.CanvasImage.pixelValue (Canvas.data orig) len width pos))
               <$> ps)))
      V2.Original.
Proof.
  revert new. induction ps as [|pos ps IH]; intros new.
  - by destruct new.
  - cbn [foldl fmap list_fmap].
    unfold V2.CanvasImage.blur_pixel at 2. cbn [V2.deref V2.imageData_ref
      V2.original V2.newImage]. rewrite IH. reflexivity.
Qed.

Lemma v2_blur_once (w h : Z) pixels :
  1 <= w -> 1 <= h ->
  V2.CanvasImage.blur (V2.CanvasImage.new w h pixels) 1
  = JS.Normal
      (V2.CanvasImage.new w h
         (foldl store4 (replicate (Z.to_nat (4 * w * h)) 0)
            ((fun pos =>
                (pos, V2.CanvasImage.pixelValue pixels
                        (Z.of_nat (length pixels)) (w * 4) pos))
               <$> V2.CanvasImage.positions (Z.of_nat (length pixels))))).
Proof.
  intros Hw Hh. unfold V2.CanvasImage.blur, V2.CanvasImage.new.
  cbn [V2.CanvasImage.width V2.CanvasImage.height V2.CanvasImage.imageData
       V2.CanvasImage.context Canvas.data].
  rewrite createImageData_normal by done. cbn [JS.bind].
  change (JS.range 0 1) with [0]. cbn [foldl].
  unfold V2.CanvasImage.blur_pass. rewrite v2_first_pass_foldl.
  reflexivity.
Qed.

Lemma fmap_fst_pair {A B} (f : A -> B) (l : list A) :
  ((fun a => (a, f a)) <$> l).*1 = l.
Proof.
  induction l as [|a l IH]; [done|].
  rewrite !fmap_cons. cbn [fst]. by rewrite IH.
Qed.

(** After the first pass every pixel of the result holds, channel by
    channel, the byte of the average computed from the original image. *)
Lemma v2_blur_once_lookup (w h : Z) pixels pos (c : nat) :
  1 <= w -> 1 <= h -> Z.of_nat (length pixels) = 4 * w * h ->
  pos ∈ V2.CanvasImage.positions (4 * w * h) -> (c < 4)%nat ->
  foldl store4 (replicate (Z.to_nat (4 * w * h)) 0)
    ((fun pos =>
        (pos, V2.CanvasImage.pixelValue pixels (4 * w * h) (w * 4) pos))
       <$> V2.CanvasImage.positions (4 * w * h))
    !! Z.to_nat (pos + Z.of_nat c)
  = Some (JS.ToUint8Clamp (JS.ToNumber
            (Spec.channel_average c (v2_sampled pixels (4 * w * h) (w * 4) pos)))).
Proof.
  intros Hw Hh Hlen Hpos Hc.
  pose proof (proj1 (elem_of_positions _ _) Hpos) as [Hmod Hrange].
  rewrite (foldl_store4_lookup_in _ _ pos
             (V2.CanvasImage.pixelValue pixels (4 * w * h) (w * 4) pos)).
  - rewrite v2_pixelValue_average.
    by destruct c as [|[|[|[|c]]]]; [..|lia].
  - rewrite fmap_fst_pair. apply NoDup_positions.
  - intros w' Hw'. apply list_elem_of_fmap in Hw' as (p & -> & Hp).
    apply elem_of_positions in Hp. simpl. lia.
  - apply list_elem_of_fmap. by exists pos.
  - done.
  - rewrite length_replicate. Z.div_mod_to_equations. lia.
Qed.

(** ** Box averages *)

(** Averages over pixels given by their coordinates, in the words of the
    specification. *)
Module Box.

(** The buffer position of the pixel at [p = (x, y)], row-major. *)
Definition position (w : Z) (p : Z * Z) : Z := (snd p * w + fst p) * 4.

(** Channel [c] of the pixel at [p]. *)
Definition channel (w : Z) (pixels : list Z) (c : nat) (p : Z * Z) : Z :=
  default 0 (pixels !! Z.to_nat (position w p + Z.of_nat c)).

(** The mean of channel [c] over the pixels [ps], as a number. *)
Definition mean (w : Z) (pixels : list Z) (c : nat) (ps : list (Z * Z)) : JS.number :=
  JS.Fin (inject_Z (foldr Z.add 0 (channel w pixels c <$> ps))
          / inject_Z (Z.of_nat (length ps))).

(** The 3x3 neighbourhood centred at [(x, y)]. *)
Definition neighbourhood (x y : Z) : list (Z * Z) :=
  [ (x - 1, y - 1); (x, y - 1); (x + 1, y - 1);
    (x - 1, y);     (x, y);     (x + 1, y);
    (x - 1, y + 1); (x, y + 1); (x + 1, y + 1) ].

(** The same without its centre. *)
Definition surrounding (x y : Z) : list (Z * Z) :=
  [ (x - 1, y - 1); (x, y - 1); (x + 1, y - 1);
    (x - 1, y);                 (x + 1, y);
    (x - 1, y + 1); (x, y + 1); (x + 1, y + 1) ].

Definition inside (w h : Z) (p : Z * Z) : Prop :=
  0 <= fst p < w /\ 0 <= snd p < h.

#[export] Instance inside_dec w h p : Decision (inside w h p).
Proof. unfold inside. apply _. Defined.

(** The byte a box blur stores at [(x, y)]: the mean over the pixels of the
    3x3 neighbourhood that lie within the image. *)
Definition box_blur (w h : Z) (pixels : list Z) (x y : Z) (c : nat) : Z :=
  JS.ToUint8Clamp (mean w pixels c (filter (inside w h) (neighbourhood x y))).

End Box.

(** A 3x3 image, black and transparent but for its centre pixel, which has
    255 in every channel. *)
Definition spot_3x3 : list Z :=
  [ 0; 0; 0; 0;   0; 0; 0; 0;           0; 0; 0; 0;
    0; 0; 0; 0;   255; 255; 255; 255;   0; 0; 0; 0;
    0; 0; 0; 0;   0; 0; 0; 0;           0; 0; 0; 0 ].


(** The sum of a channel over pixels read inside the buffer is the sum of
    their bytes. *)
Lemma get_inside data i :
  0 <= i < Z.of_nat (length data) ->
  JS.get data i = JS.Num (JS.of_Z (default 0 (data !! Z.to_nat i))).
Proof.
  intros Hi.
  destruct (lookup_lt_is_Some_2 data (Z.to_nat i)) as [b Hb]; [lia|].
  rewrite Hb. apply get_lookup; [lia|done].
Qed.

Lemma item_pixel_at data sp (c : nat) :
  (c < 4)%nat -> 0 <= sp -> sp + 3 < Z.of_nat (length data) ->
  JS.item (Canvas.pixel_at data sp) c
  = JS.Num (JS.of_Z (default 0 (data !! Z.to_nat (sp + Z.of_nat c)))).
Proof.
  intros Hc Hsp Hlen.
  destruct c as [|[|[|[|c]]]]; [| | | |lia];
    unfold Canvas.pixel_at; cbn [JS.item lookup list_lookup default];
    [replace (sp + Z.of_nat 0) with sp by lia
    |change (Z.of_nat 1) with 1
    |change (Z.of_nat 2) with 2
    |change (Z.of_nat 3) with 3];
    apply get_inside; lia.
Qed.

Lemma channel_sum_bytes data sps (c : nat) a :
  (c < 4)%nat ->
  (forall sp, sp ∈ sps -> 0 <= sp /\ sp + 3 < Z.of_nat (length data)) ->
  foldl JS.add_value (JS.of_Z a)
    ((fun px => JS.item px c) <$> (Canvas.pixel_at data <$> sps))
  = JS.of_Z (a + foldr Z.add 0
                   ((fun sp => default 0 (data !! Z.to_nat (sp + Z.of_nat c))) <$> sps)).
Proof.
  intros Hc. revert a. induction sps as [|sp sps IH]; intros a Hin.
  - simpl. f_equal. lia.
  - rewrite !fmap_cons. cbn [foldl foldr].
    destruct (Hin sp) as [? ?]; [by left|].
    rewrite item_pixel_at by done. rewrite add_value_of_Z.
    rewrite IH by (intros sp' Hsp'; apply Hin; by right).
    f_equal. lia.
Qed.

(** When every sampled pixel lies in the buffer the average of a channel is
    the exact quotient of the sum of its bytes by their number. *)
Lemma channel_average_bytes data sps (c : nat) :
  (c < 4)%nat -> sps <> [] ->
  (forall sp, sp ∈ sps -> 0 <= sp /\ sp + 3 < Z.of_nat (length data)) ->
  Spec.channel_average c (Canvas.pixel_at data <$> sps)
  = JS.Num (JS.Fin
      (inject_Z (foldr Z.add 0
                   ((fun sp => default 0 (data !! Z.to_nat (sp + Z.of_nat c))) <$> sps))
       / inject_Z (Z.of_nat (length sps)))).
Proof.
  intros Hc Hne Hin. unfold Spec.channel_average, Spec.channel_sum.
  rewrite channel_sum_bytes by done. rewrite length_fmap.
  rewrite div_of_Z by (destruct sps; [done|simpl; lia]).
  do 3 f_equal.
Qed.

(** The bytes of channel [c] at the buffer positions [sps]. *)
Definition bytes_at (data : list Z) (c : nat) (sps : list Z) : list Z :=
  (fun sp => default 0 (data !! Z.to_nat (sp + Z.of_nat c))) <$> sps.

(** The buffer positions version 2 samples around [pos]. *)
Definition v2_sampled_positions (imageDataLength width pos : Z) : list Z :=
  filter (fun sp => V2.CanvasImage.in_buffer imageDataLength sp = true)
    (V2.CanvasImage.surroundingPixels pos width).

(** The buffer positions of the pairs version 1 samples around [(x, y)]. *)
Definition v1_sampled_positions (img : V1.CanvasImageData.t) (x y : Z) : list Z :=
  (fun c => snd c * V1.CanvasImageData.width img * 4 + fst c * 4)
    <$> filter (v1_passes img) (V1.CanvasImage.surroundingPixels x y).

Lemma v2_average_exact (w h : Z) pixels pos (c : nat) :
  1 <= w -> 1 <= h -> Z.of_nat (length pixels) = 4 * w * h ->
  pos ∈ V2.CanvasImage.positions (4 * w * h) -> (c < 4)%nat ->
  let sps := v2_sampled_positions (4 * w * h) (w * 4) pos in
  Spec.channel_average c (v2_sampled pixels (4 * w * h) (w * 4) pos)
  = JS.Num (JS.Fin (inject_Z (foldr Z.add 0 (bytes_at pixels c sps))
                    / inject_Z (Z.of_nat (length sps)))).
Proof.
  intros Hw Hh Hlen Hpos Hc sps. subst sps.
  unfold v2_sampled, v2_sampled_positions.
  apply channel_average_bytes; [done| |].
  - pose proof (v2_samples_some_pixel w h pixels pos Hw Hh Hpos) as Hsome.
    unfold v2_sampled in Hsome. rewrite length_fmap in Hsome.
    intros Hnil. rewrite Hnil in Hsome. simpl in Hsome. lia.
  - intros sp Hsp. apply list_elem_of_filter in Hsp as [Hb Hsp].
    rewrite Hlen.
    by apply (proj2 (v2_accesses_inside_buffer w h pos Hw Hh Hpos)).
Qed.

Lemma v1_average_exact (w h : Z) pixels x y (c : nat) :
  Z.of_nat (length pixels) = 4 * w * h ->
  0 <= x -> x + 1 < w -> 0 <= y -> y + 1 < h -> (c < 4)%nat ->
  let sps := v1_sampled_positions (wrap w h pixels) x y in
  Spec.channel_average c (v1_sampled (wrap w h pixels) x y)
  = JS.Num (JS.Fin (inject_Z (foldr Z.add 0 (bytes_at pixels c sps))
                    / inject_Z (Z.of_nat (length sps)))).
Proof.
  intros Hlen Hx1 Hx2 Hy1 Hy2 Hc sps. subst sps.
  replace (v1_sampled (wrap w h pixels) x y)
    with (Canvas.pixel_at pixels <$> v1_sampled_positions (wrap w h pixels) x y)
    by (unfold v1_sampled_positions; by rewrite <- list_fmap_compose).
  apply channel_average_bytes; [done| |].
  - pose proof (v1_samples_own_pixel (wrap w h pixels) x y) as Hsome.
    unfold v1_sampled in Hsome. rewrite length_fmap in Hsome.
    unfold v1_sampled_positions. intros Hnil.
    apply (f_equal length) in Hnil. rewrite length_fmap in Hnil.
    simpl in Hsome, Hnil. lia.
  - intros sp Hsp. unfold v1_sampled_positions in Hsp.
    apply list_elem_of_fmap in Hsp as ([x' y'] & -> & Hp).
    apply list_elem_of_filter in Hp as [Hpass Hp].
    unfold v1_passes, refused in Hpass. cbn [fst snd wrap] in *.
    simpl in Hpass. rewrite Hlen.
    unfold V1.CanvasImage.surroundingPixels in Hp.
    repeat (apply elem_of_cons in Hp as [Hp|Hp];
            [injection Hp as -> ->; simpl; nia|]).
    by apply elem_of_nil in Hp.
Qed.

(** C4, at the failing input.  In version 1 the step of [blur] for the only
    pixel of a 1x1 image with bytes 10, 20, 30, 40 samples three pixels: the
    pixel itself and the pairs (0, 1) and (1, 1), which pass the test of
    [convertCoordsToIndex] and are read past the buffer.  Their channels
    are [undefined]: every total is NaN, every channel of [pixelValue] is
    NaN, not the quotient of a sum of channel values by 3, and the step
    stores 0 in the four bytes of the pixel.  The same happens at the pixel
    (1, 2) of the last row of the 3x3 image. *)
Theorem v1_blur_pixel_average_is_NaN :
  V1.CanvasImage.sum_surrounding image_1x1 0 0
  = JS.Normal (V1.mkTotals JS.NaN JS.NaN JS.NaN JS.NaN 3)
  /\ V1.CanvasImage.pixelValue image_1x1 0 0
     = JS.Normal [JS.Num JS.NaN; JS.Num JS.NaN; JS.Num JS.NaN; JS.Num JS.NaN]
  /\ V1.CanvasImage.blur_pixel 0 0
       (V1.mkHeap image_1x1 (wrap 1 1 [9; 9; 9; 9]) V1.Original)
     = JS.Normal (V1.mkHeap image_1x1 (wrap 1 1 [0; 0; 0; 0]) V1.Original)
  /\ V1.CanvasImage.sum_surrounding (wrap 3 3 spot_3x3) 1 2
     = JS.Normal (V1.mkTotals JS.NaN JS.NaN JS.NaN JS.NaN 8)
  /\ V1.CanvasImage.pixelValue (wrap 3 3 spot_3x3) 1 2
     = JS.Normal [JS.Num JS.NaN; JS.Num JS.NaN; JS.Num JS.NaN; JS.Num JS.NaN].
Proof. repeat split. Qed.

(** Around a pixel that is not on the border of the image, every position
    of [surroundingPixels] passes the bounds test, and the eight positions
    are those of the eight other pixels of the 3x3 neighbourhood. *)
Lemma v2_sampled_interior (w h : Z) pixels x y :
  1 <= x -> x + 1 < w -> 1 <= y -> y + 1 < h ->
  v2_sampled pixels (4 * w * h) (w * 4) (Box.position w (x, y))
  = Canvas.pixel_at pixels <$> (Box.position w <$> Box.surrounding x y).
Proof.
  intros Hx1 Hx2 Hy1 Hy2. unfold v2_sampled. f_equal.
  unfold V2.CanvasImage.surroundingPixels, Box.surrounding, Box.position.
  cbn [fst snd fmap list_fmap].
  rewrite !filter_cons_True by (apply in_buffer_true; nia).
  rewrite filter_nil. repeat (apply (f_equal2 cons); [lia|]). done.
Qed.



(** ** Version 1: [flipHorizontal] *)

(** A loop whose body, on the states of the form [inj t], never throws and
    stays among them is a left fold. *)
Lemma for_each_foldl_on {I S T} (inj : T -> S) (body : I -> S -> JS.completion S)
    (f : T -> I -> T) xs t :
  (forall x t, x ∈ xs -> body x (inj t) = JS.Normal (inj (f t x))) ->
  JS.for_each xs body (inj t) = JS.Normal (inj (foldl f t xs)).
Proof.
  revert t. induction xs as [|x xs IH]; intros t Hbody; simpl; [done|].
  rewrite Hbody by (by left). simpl.
  apply IH. intros x' t' Hx'. apply Hbody. by right.
Qed.

(** Two nested loops are one fold over the list of their iterations. *)
Lemma foldl_bind_fmap {A B C D} (g : A -> D -> A) (k : B -> C -> D)
    (l : list B) (m : list C) (a : A) :
  foldl (fun a b => foldl (fun a c => g a (k b c)) a m) a l
  = foldl g a (l ≫= (fun b => k b <$> m)).
Proof.
  revert a. induction l as [|b l IH]; intros a; [done|].
  rewrite bind_cons, foldl_app, foldl_fmap. simpl. apply IH.
Qed.

Lemma elem_of_range lo hi k : k ∈ JS.range lo hi <-> lo <= k < hi.
Proof. unfold JS.range. rewrite elem_of_seqZ. lia. Qed.

(** The write [flipHorizontal] performs for the pixel at [(x, y)]. *)
Definition flip_write (w : Z) (pixels : list Z) (y x : Z) : Z * list JS.value :=
  (y * w * 4 + (- (x - w) - 1) * 4,
   Canvas.pixel_at pixels (y * w * 4 + x * 4)).

(** All the writes of [flipHorizontal], in the order of its loops. *)
Definition flip_writes (w h : Z) (pixels : list Z) : list (Z * list JS.value) :=
  JS.range 0 h ≫= (fun y => flip_write w pixels y <$> JS.range 0 w).

(** The buffer [flipHorizontal] builds from [pixels]. *)
Definition flip_data (w h : Z) (pixels : list Z) : list Z :=
  foldl store4 (replicate (Z.to_nat (4 * w * h)) 0) (flip_writes w h pixels).

Lemma flip_pixel_in_range (w h : Z) ctx pixels d x y :
  0 <= x < w -> 0 <= y < h ->
  V1.CanvasImage.flip_pixel (V1.CanvasImage.mk w h ctx (wrap w h pixels)) y x (wrap w h d)
  = JS.Normal (wrap w h (store4 d (flip_write w pixels y x))).
Proof.
  intros Hx Hy. unfold V1.CanvasImage.flip_pixel.
  cbn [V1.CanvasImage.width V1.CanvasImage.canvasImageData].
  rewrite getPixel_accepted by (unfold refused; simpl; lia).
  cbn [JS.bind].
  rewrite setPixel_accepted by (unfold refused; simpl; lia).
  reflexivity.
Qed.

Lemma flipHorizontal_flip_data (w h : Z) pixels :
  1 <= w -> 1 <= h ->
  V1.CanvasImage.flipHorizontal (V1.CanvasImage.new w h pixels)
  = JS.Normal (V1.CanvasImage.new w h (flip_data w h pixels)).
Proof.
  intros Hw Hh. unfold V1.CanvasImage.flipHorizontal, V1.CanvasImage.new.
  cbn [V1.CanvasImage.width V1.CanvasImage.height V1.CanvasImage.context].
  rewrite createImageData_normal by done. cbn [JS.bind].
  fold (wrap w h pixels). fold (wrap w h (replicate (Z.to_nat (4 * w * h)) 0)).
  rewrite (for_each_foldl_on (wrap w h) _
             (fun d y => foldl (fun d x => store4 d (flip_write w pixels y x)) d
                           (JS.range 0 w))).
  - cbn [JS.bind]. rewrite foldl_bind_fmap. reflexivity.
  - intros y d Hy. apply elem_of_range in Hy.
    apply (for_each_foldl_on (wrap w h)).
    intros x d' Hx. apply elem_of_range in Hx.
    by apply flip_pixel_in_range.
Qed.

Definition is_byte (b : Z) : Prop := 0 <= b <= 255.

Lemma length_flip_data (w h : Z) pixels :
  length (flip_data w h pixels) = Z.to_nat (4 * w * h).
Proof. unfold flip_data. by rewrite length_foldl_store4, length_replicate. Qed.

Lemma bind_fmap_fst {A B C D} (p : A -> B -> C) (v : A -> B -> D)
    (l : list A) (k : list B) :
  (l ≫= (fun a => (fun b => (p a b, v a b)) <$> k)).*1
  = l ≫= (fun a => p a <$> k).
Proof.
  induction l as [|a l IH]; [done|].
  rewrite !bind_cons, fmap_app, IH. f_equal.
  rewrite <- list_fmap_compose. done.
Qed.

(** No two writes of [flipHorizontal] go to the same pixel. *)
Lemma NoDup_flip_writes (w h : Z) pixels : NoDup (flip_writes w h pixels).*1.
Proof.
  unfold flip_writes, flip_write.
  rewrite (bind_fmap_fst (fun y x => y * w * 4 + (- (x - w) - 1) * 4)).
  apply NoDup_bind.
  - intros y1 y2 pos Hy1 Hy2 Hp1 Hp2.
    apply elem_of_range in Hy1, Hy2.
    apply list_elem_of_fmap in Hp1 as (x1 & -> & Hx1).
    apply list_elem_of_fmap in Hp2 as (x2 & Heq & Hx2).
    apply elem_of_range in Hx1, Hx2. nia.
  - intros y Hy. apply NoDup_fmap_2_strong; [|apply NoDup_seqZ].
    intros x1 x2 _ _ Heq. lia.
  - apply NoDup_seqZ.
Qed.

Lemma elem_of_flip_writes (w h : Z) pixels wr :
  wr ∈ flip_writes w h pixels <->
  exists x y, 0 <= x < w /\ 0 <= y < h /\ wr = flip_write w pixels y x.
Proof.
  unfold flip_writes. rewrite list_elem_of_bind. split.
  - intros (y & Hwr & Hy). apply list_elem_of_fmap in Hwr as (x & -> & Hx).
    apply elem_of_range in Hx, Hy. by exists x, y.
  - intros (x & y & Hx & Hy & ->). exists y. split.
    + apply list_elem_of_fmap. exists x. split; [done|]. by apply elem_of_range.
    + by apply elem_of_range.
Qed.

(** One application moves the pixel at [(x, y)] to [(width - 1 - x, y)]. *)
Lemma flip_data_lookup (w h : Z) pixels x y (c : nat) :
  Z.of_nat (length pixels) = 4 * w * h -> Forall is_byte pixels ->
  0 <= x < w -> 0 <= y < h -> (c < 4)%nat ->
  flip_data w h pixels !! Z.to_nat (Box.position w (w - 1 - x, y) + Z.of_nat c)
  = pixels !! Z.to_nat (Box.position w (x, y) + Z.of_nat c).
Proof.
  intros Hlen Hbytes Hx Hy Hc. unfold Box.position. cbn [fst snd].
  assert (0 <= (y * w + x) * 4 /\ (y * w + x) * 4 + 3 < 4 * w * h) as Hsrc by nia.
  assert (0 <= (y * w + (w - 1 - x)) * 4
          /\ (y * w + (w - 1 - x)) * 4 + 3 < 4 * w * h) as Hdst by nia.
  replace ((y * w + (w - 1 - x)) * 4) with (fst (flip_write w pixels y x))
    by (simpl; lia).
  unfold flip_data.
  rewrite (foldl_store4_lookup_in _ _ _ (snd (flip_write w pixels y x))).
  - cbn [flip_write snd]. rewrite item_pixel_at by lia.
    cbn [JS.ToNumber].
    replace (y * w * 4 + x * 4) with ((y * w + x) * 4) by lia.
    destruct (lookup_lt_is_Some_2 pixels
                (Z.to_nat ((y * w + x) * 4 + Z.of_nat c))) as [b Hb]; [lia|].
    rewrite Hb. cbn [default]. f_equal. apply ToUint8Clamp_byte.
    by apply (proj1 (Forall_lookup _ _) Hbytes _ _ Hb).
  - apply NoDup_flip_writes.
  - intros wr Hwr. apply elem_of_flip_writes in Hwr as (x' & y' & Hx' & Hy' & ->).
    cbn [flip_write fst]. split; [nia|]. Z.div_mod_to_equations. lia.
  - apply elem_of_flip_writes. exists x, y. by destruct (flip_write w pixels y x).
  - done.
  - rewrite length_replicate. cbn [flip_write fst]. lia.
Qed.

(** Every byte of a w x h buffer belongs to one pixel of the image. *)
Lemma index_decompose (w h : Z) (i : nat) :
  1 <= w -> Z.of_nat i < 4 * w * h ->
  exists x y (c : nat),
    0 <= x < w /\ 0 <= y < h /\ (c < 4)%nat
    /\ i = Z.to_nat (Box.position w (x, y) + Z.of_nat c).
Proof.
  intros Hw Hi.
  exists ((Z.of_nat i `div` 4) `mod` w), ((Z.of_nat i `div` 4) `div` w),
    (Z.to_nat (Z.of_nat i `mod` 4)).
  unfold Box.position. cbn [fst snd].
  pose proof (Z.mod_pos_bound (Z.of_nat i `div` 4) w ltac:(lia)) as Hx.
  pose proof (Z.div_mod (Z.of_nat i `div` 4) w ltac:(lia)) as Hk.
  assert (0 <= Z.of_nat i `div` 4 < w * h) as Hq
    by (Z.div_mod_to_equations; lia).
  assert (0 <= (Z.of_nat i `div` 4) `div` w < h) as Hy.
  { split; [apply Z.div_pos; lia|]. apply Z.div_lt_upper_bound; lia. }
  split; [done|]. split; [done|]. split; [Z.div_mod_to_equations; lia|].
  rewrite Z2Nat.id by (Z.div_mod_to_equations; lia).
  replace (((Z.of_nat i `div` 4) `div` w * w + (Z.of_nat i `div` 4) `mod` w) * 4
           + Z.of_nat i `mod` 4) with (Z.of_nat i);
    [by rewrite Nat2Z.id|].
  rewrite (Z.mul_comm _ w), <- Hk. Z.div_mod_to_equations. lia.
Qed.

Lemma flip_data_bytes (w h : Z) pixels :
  1 <= w -> Z.of_nat (length pixels) = 4 * w * h -> Forall is_byte pixels ->
  Forall is_byte (flip_data w h pixels).
Proof.
  intros Hw Hlen Hbytes. apply Forall_lookup. intros i b Hb.
  assert (Z.of_nat i < 4 * w * h) as Hi.
  { apply lookup_lt_Some in Hb. rewrite length_flip_data in Hb. lia. }
  destruct (index_decompose w h i Hw Hi) as (x & y & c & Hx & Hy & Hc & ->).
  replace x with (w - 1 - (w - 1 - x)) in Hb by lia.
  rewrite flip_data_lookup in Hb by (done || lia).
  by apply (proj1 (Forall_lookup _ _) Hbytes _ _ Hb).
Qed.

Lemma flip_data_involutive (w h : Z) pixels :
  1 <= w -> 1 <= h ->
  Z.of_nat (length pixels) = 4 * w * h -> Forall is_byte pixels ->
  flip_data w h (flip_data w h pixels) = pixels.
Proof.
  intros Hw Hh Hlen Hbytes. apply list_eq. intros i.
  destruct (decide (Z.of_nat i < 4 * w * h)) as [Hi|Hi].
  - destruct (index_decompose w h i Hw Hi) as (x & y & c & Hx & Hy & Hc & ->).
    replace x with (w - 1 - (w - 1 - x)) at 1 by lia.
    rewrite flip_data_lookup;
      [|rewrite length_flip_data; lia|by apply flip_data_bytes|lia|done|done].
    by rewrite flip_data_lookup by (done || lia).
  - rewrite !lookup_ge_None_2; [done|lia|rewrite length_flip_data; lia].
Qed.

(** C9.  [flipHorizontal] is an involution: applied twice to an image it
    gives back every byte of its data, one application moving the pixel at
    [(x, y)] to [(width - 1 - x, y)]. *)
Theorem flipHorizontal_involution (w h : Z) (pixels : list Z) :
  1 <= w -> 1 <= h ->
  Z.of_nat (length pixels) = 4 * w * h -> Forall is_byte pixels ->
  exists once,
    V1.CanvasImage.flipHorizontal (V1.CanvasImage.new w h pixels) = JS.Normal once
    /\ V1.CanvasImage.flipHorizontal once = JS.Normal (V1.CanvasImage.new w h pixels)
    /\ forall x y (c : nat),
         0 <= x < w -> 0 <= y < h -> (c < 4)%nat ->
         Canvas.data (V1.CanvasImageData.imageData (V1.CanvasImage.canvasImageData once))
           !! Z.to_nat (Box.position w (w - 1 - x, y) + Z.of_nat c)
         = pixels !! Z.to_nat (Box.position w (x, y) + Z.of_nat c).
Proof.
  intros Hw Hh Hlen Hbytes.
  exists (V1.CanvasImage.new w h (flip_data w h pixels)).
  split; [by apply flipHorizontal_flip_data|]. split.
  - rewrite flipHorizontal_flip_data by done.
    by rewrite flip_data_involutive.
  - intros x y c Hx Hy Hc. by apply flip_data_lookup.
Qed.

Lemma flipHorizontal_involution_witness :
  exists once,
    V1.CanvasImage.flipHorizontal
      (V1.CanvasImage.new 2 2 [1; 2; 3; 4; 5; 6; 7; 8; 9; 10; 11; 12; 13; 14; 15; 16])
    = JS.Normal once
    /\ V1.CanvasImage.flipHorizontal once
       = JS.Normal
           (V1.CanvasImage.new 2 2 [1; 2; 3; 4; 5; 6; 7; 8; 9; 10; 11; 12; 13; 14; 15; 16])
    /\ forall x y (c : nat),
         0 <= x < 2 -> 0 <= y < 2 -> (c < 4)%nat ->
         Canvas.data (V1.CanvasImageData.imageData (V1.CanvasImage.canvasImageData once))
           !! Z.to_nat (Box.position 2 (2 - 1 - x, y) + Z.of_nat c)
         = [1; 2; 3; 4; 5; 6; 7; 8; 9; 10; 11; 12; 13; 14; 15; 16]
             !! Z.to_nat (Box.position 2 (x, y) + Z.of_nat c).
Proof.
  apply (flipHorizontal_involution 2 2); [lia|lia|reflexivity|].
  unfold is_byte. repeat (apply Forall_cons; split; [lia|]). apply Forall_nil_2.
Defined.

(** ** Version 1: exceptions *)

(** A loop whose body always completes normally completes normally. *)
Lemma for_each_normal {I S} (body : I -> S -> JS.completion S) xs s :
  (forall x s, exists s', body x s = JS.Normal s') ->
  exists s', JS.for_each xs body s = JS.Normal s'.
Proof.
  intros Hbody. revert s.
  induction xs as [|x xs IH]; intros s; simpl; [eauto|].
  destruct (Hbody x s) as [s' ->]. simpl. apply IH.
Qed.

Lemma flip_pixel_normal this y x newImage :
  exists newImage', V1.CanvasImage.flip_pixel this y x newImage = JS.Normal newImage'.
Proof.
  unfold V1.CanvasImage.flip_pixel.
  destruct (getPixel_normal (V1.CanvasImage.canvasImageData this) x y) as [[|px] ->];
    simpl; [eauto|].
  destruct (setPixel_normal newImage (- (x - V1.CanvasImage.width this) - 1) y px)
    as [r ->].
  simpl. eauto.
Qed.

Lemma blur_pixel_normal y x st :
  exists st', V1.CanvasImage.blur_pixel y x st = JS.Normal st'.
Proof.
  unfold V1.CanvasImage.blur_pixel. rewrite v1_pixelValue_average. simpl.
  destruct (setPixel_normal (V1.newImage st) x y
              (Spec.average_pixel (v1_sampled (V1.deref st) x y))) as [r ->].
  simpl. eauto.
Qed.

Lemma blur_pass_normal this i st :
  exists st', V1.CanvasImage.blur_pass this i st = JS.Normal st'.
Proof.
  unfold V1.CanvasImage.blur_pass.
  destruct (for_each_normal
              (fun y => JS.for_each (JS.range 0 (V1.CanvasImage.width this))
                          (fun x => V1.CanvasImage.blur_pixel y x))
              (JS.range 0 (V1.CanvasImage.height this)) st) as [st' ->].
  - intros y s. apply for_each_normal. intros x s'. apply blur_pixel_normal.
  - simpl. eauto.
Qed.

(** The only exception [blur] and [flipHorizontal] can end with is the one
    [createImageData] throws for an image without pixels. *)
Lemma blur_completion this passes :
  (exists r, V1.CanvasImage.blur this passes = JS.Normal r)
  \/ V1.CanvasImage.blur this passes = JS.Throw JS.IndexSizeError.
Proof.
  unfold V1.CanvasImage.blur, Canvas.createImageData.
  case_decide; [by right|left]. cbn [JS.bind].
  match goal with
  | |- context [JS.for_each ?xs ?body ?s] =>
      destruct (for_each_normal body xs s) as [st' ->];
        [intros i s'; apply blur_pass_normal|]
  end.
  simpl. eauto.
Qed.

Lemma flipHorizontal_completion this :
  (exists r, V1.CanvasImage.flipHorizontal this = JS.Normal r)
  \/ V1.CanvasImage.flipHorizontal this = JS.Throw JS.IndexSizeError.
Proof.
  unfold V1.CanvasImage.flipHorizontal, Canvas.createImageData.
  case_decide; [by right|left]. cbn [JS.bind].
  match goal with
  | |- context [JS.for_each ?xs ?body ?s] =>
      destruct (for_each_normal body xs s) as [st' ->]
  end.
  - intros y s. apply for_each_normal. intros x s'. apply flip_pixel_normal.
  - simpl. eauto.
Qed.

(** C6.  [getPixel] and [setPixel] complete normally on every pair of
    coordinates: where [convertCoordsToIndex] throws its [CoordinateError],
    each catches it and returns [false] ([setPixel] leaving the image as it
    was), so that [blur] and [flipHorizontal] never end with that error. *)
Theorem getPixel_setPixel_never_throw :
  (forall this x y, exists p, V1.CanvasImageData.getPixel this x y = JS.Normal p)
  /\ (forall this x y pixelValues,
        exists r, V1.CanvasImageData.setPixel this x y pixelValues = JS.Normal r)
  /\ (forall this x y e,
        V1.CanvasImageData.convertCoordsToIndex this x y = JS.Throw e ->
        e = JS.CoordinateError
        /\ V1.CanvasImageData.getPixel this x y = JS.Normal V1.JFalse
        /\ forall pixelValues,
             V1.CanvasImageData.setPixel this x y pixelValues
             = JS.Normal (JS.Bool false, this))
  /\ (forall this passes,
        V1.CanvasImage.blur this passes <> JS.Throw JS.CoordinateError)
  /\ (forall this,
        V1.CanvasImage.flipHorizontal this <> JS.Throw JS.CoordinateError).
Proof.
  split; [exact getPixel_normal|]. split; [exact setPixel_normal|].
  split; [|split].
  - intros this x y e He. destruct (refused_dec this x y) as [Hr|Hn].
    + rewrite convertCoordsToIndex_refused in He by done.
      split; [congruence|]. split; [by apply getPixel_refused|].
      intros pv. by apply setPixel_refused.
    + rewrite convertCoordsToIndex_accepted in He by done. discriminate.
  - intros this passes.
    destruct (blur_completion this passes) as [[r ->]| ->]; discriminate.
  - intros this.
    destruct (flipHorizontal_completion this) as [[r ->]| ->]; discriminate.
Qed.

Lemma getPixel_setPixel_never_throw_witness :
  JS.CoordinateError = JS.CoordinateError
  /\ V1.CanvasImageData.getPixel image_2x2 (-1) 0 = JS.Normal V1.JFalse
  /\ forall pixelValues,
       V1.CanvasImageData.setPixel image_2x2 (-1) 0 pixelValues
       = JS.Normal (JS.Bool false, image_2x2).
Proof.
  apply (proj1 (proj2 (proj2 getPixel_setPixel_never_throw)) image_2x2 (-1) 0).
  reflexivity.
Defined.

(** * Further properties *)

(** ** What a buffer can hold *)

(** Whatever number is stored, the buffer receives a byte. *)
Lemma ToUint8Clamp_range n : 0 <= JS.ToUint8Clamp n <= 255.
Proof.
  destruct n as [[a d]| |[|]]; simpl; try lia.
  case_bool_decide as Hpos; [lia|]. simpl in Hpos.
  destruct (Qle_bool 255 (a # d)) eqn:Hle; [lia|].
  assert (~ (255 <= a # d)%Q) as Hlt by (rewrite <- Qle_bool_iff, Hle; discriminate).
  unfold Qle in Hlt. simpl in Hlt.
  assert (0 <= a `div` Z.pos d < 255) as Hf.
  { split; [apply Z.div_pos; lia|apply Z.div_lt_upper_bound; lia]. }
  unfold Qfloor.
  destruct (_ ?= _)%Q; [destruct (Z.even _)|..]; lia.
Qed.

(** The byte stored depends on the value of the number only, not on the
    fraction that denotes it. *)
Lemma ToUint8Clamp_Qeq (p q : Q) :
  (p == q)%Q -> JS.ToUint8Clamp (JS.Fin p) = JS.ToUint8Clamp (JS.Fin q).
Proof.
  intros Heq. unfold JS.ToUint8Clamp.
  assert (Qnum p <= 0 <-> Qnum q <= 0) as Hsign.
  { unfold Qeq in Heq. destruct p as [a d], q as [b e]. simpl in *. nia. }
  rewrite (bool_decide_ext _ _ Hsign).
  rewrite (Qleb_comp 255%Q 255%Q (Qeq_refl _) p q Heq).
  rewrite (Qfloor_comp p q Heq).
  rewrite (Qcompare_comp (p - inject_Z (Qfloor q))%Q (q - inject_Z (Qfloor q))%Q
             ltac:(by rewrite Heq) (1 # 2)%Q (1 # 2)%Q (Qeq_refl _)).
  reflexivity.
Qed.

(** The average of [n] equal bytes is stored as that byte. *)
Lemma ToUint8Clamp_mean_of_equal (n v : Z) :
  1 <= n -> 0 <= v <= 255 ->
  JS.ToUint8Clamp (JS.Fin (inject_Z (n * v) / inject_Z n)) = v.
Proof.
  intros Hn Hv.
  transitivity (JS.ToUint8Clamp (JS.of_Z v)); [|by apply ToUint8Clamp_byte].
  apply ToUint8Clamp_Qeq.
  destruct n as [|n|n]; [lia| |lia].
  unfold Qeq, Qdiv, Qmult, Qinv, inject_Z. simpl. lia.
Qed.

Lemma set_bytes data i v : Forall is_byte data -> Forall is_byte (JS.set data i v).
Proof.
  intros Hb. unfold JS.set. case_decide; [done|].
  apply Forall_insert; [done|]. apply ToUint8Clamp_range.
Qed.

Lemma store4_bytes data w : Forall is_byte data -> Forall is_byte (store4 data w).
Proof. intros Hb. unfold store4. by repeat apply set_bytes. Qed.

(** Storing what is already there changes nothing. *)
Lemma set_same data i v :
  0 <= i -> data !! Z.to_nat i = Some (JS.ToUint8Clamp (JS.ToNumber v)) ->
  JS.set data i v = data.
Proof.
  intros Hi Hv. unfold JS.set. rewrite decide_False by lia.
  by apply list_insert_id.
Qed.

(** ** Version 1: the index of a pixel *)

(** X1.  For an in-range pair [convertCoordsToIndex] returns a multiple of
    four that leaves room for the four bytes of the pixel inside a buffer
    of [4 * width * height] bytes. *)
Theorem convertCoordsToIndex_inside_buffer (this : V1.CanvasImageData.t) (x y : Z) :
  0 <= x < V1.CanvasImageData.width this ->
  0 <= y < V1.CanvasImageData.height this ->
  exists pos,
    V1.CanvasImageData.convertCoordsToIndex this x y = JS.Normal pos
    /\ pos `mod` 4 = 0
    /\ 0 <= pos
    /\ pos + 3 < 4 * V1.CanvasImageData.width this * V1.CanvasImageData.height this.
Proof.
  intros Hx Hy. eexists. split.
  - apply convertCoordsToIndex_accepted. unfold refused. lia.
  - split; [Z.div_mod_to_equations; lia|]. nia.
Qed.

Lemma convertCoordsToIndex_inside_buffer_witness :
  exists pos,
    V1.CanvasImageData.convertCoordsToIndex image_2x2 1 1 = JS.Normal pos
    /\ pos `mod` 4 = 0
    /\ 0 <= pos
    /\ pos + 3 < 4 * V1.CanvasImageData.width image_2x2
                   * V1.CanvasImageData.height image_2x2.
Proof.
  apply (convertCoordsToIndex_inside_buffer image_2x2 1 1); simpl; lia.
Defined.

Lemma pixels_apart (w h x y x' y' : Z) :
  0 <= x < w -> 0 <= y < h -> 0 <= x' < w -> 0 <= y' < h ->
  (x, y) <> (x', y') ->
  y * w * 4 + x * 4 + 3 < y' * w * 4 + x' * 4
  \/ y' * w * 4 + x' * 4 + 3 < y * w * 4 + x * 4.
Proof.
  intros Hx Hy Hx' Hy' Hne.
  destruct (Z.lt_trichotomy y y') as [Hlt|[->|Hlt]].
  - left. assert ((y + 1) * w <= y' * w) by nia. lia.
  - assert (x <> x') by congruence. lia.
  - right. assert ((y' + 1) * w <= y * w) by nia. lia.
Qed.

(** X2.  Two different in-range pairs get indices at least four apart: the
    pixels do not share a byte. *)
Theorem convertCoordsToIndex_injective (this : V1.CanvasImageData.t) (x y x' y' : Z) :
  0 <= x < V1.CanvasImageData.width this ->
  0 <= y < V1.CanvasImageData.height this ->
  0 <= x' < V1.CanvasImageData.width this ->
  0 <= y' < V1.CanvasImageData.height this ->
  (x, y) <> (x', y') ->
  exists pos pos',
    V1.CanvasImageData.convertCoordsToIndex this x y = JS.Normal pos
    /\ V1.CanvasImageData.convertCoordsToIndex this x' y' = JS.Normal pos'
    /\ (pos + 3 < pos' \/ pos' + 3 < pos).
Proof.
  intros Hx Hy Hx' Hy' Hne. do 2 eexists.
  split; [apply convertCoordsToIndex_accepted; unfold refused; lia|].
  split; [apply convertCoordsToIndex_accepted; unfold refused; lia|].
  by apply (pixels_apart _ (V1.CanvasImageData.height this)).
Qed.

Lemma convertCoordsToIndex_injective_witness :
  exists pos pos',
    V1.CanvasImageData.convertCoordsToIndex image_2x2 1 0 = JS.Normal pos
    /\ V1.CanvasImageData.convertCoordsToIndex image_2x2 0 1 = JS.Normal pos'
    /\ (pos + 3 < pos' \/ pos' + 3 < pos).
Proof.
  apply (convertCoordsToIndex_injective image_2x2 1 0 0 1);
    simpl; try lia. discriminate.
Defined.

(** X3.  The pair [(width, y)] is not refused: it gets the index of
    [(0, y + 1)], the first pixel of the next row. *)
Theorem convertCoordsToIndex_at_width (this : V1.CanvasImageData.t) (y : Z) :
  0 <= V1.CanvasImageData.width this ->
  0 <= y < V1.CanvasImageData.height this ->
  exists pos,
    V1.CanvasImageData.convertCoordsToIndex this (V1.CanvasImageData.width this) y
    = JS.Normal pos
    /\ V1.CanvasImageData.convertCoordsToIndex this 0 (y + 1) = JS.Normal pos
    /\ V1.CanvasImageData.getPixel this (V1.CanvasImageData.width this) y
       = V1.CanvasImageData.getPixel this 0 (y + 1).
Proof.
  intros Hw Hy.
  assert (~ refused this (V1.CanvasImageData.width this) y) as H1
    by (unfold refused; lia).
  assert (~ refused this 0 (y + 1)) as H2 by (unfold refused; lia).
  exists ((y + 1) * V1.CanvasImageData.width this * 4 + 0 * 4).
  split; [|split].
  - rewrite convertCoordsToIndex_accepted by done. f_equal. lia.
  - by rewrite convertCoordsToIndex_accepted.
  - rewrite !getPixel_accepted by done. do 3 f_equal. lia.
Qed.

Lemma convertCoordsToIndex_at_width_witness :
  exists pos,
    V1.CanvasImageData.convertCoordsToIndex image_2x2
      (V1.CanvasImageData.width image_2x2) 0 = JS.Normal pos
    /\ V1.CanvasImageData.convertCoordsToIndex image_2x2 0 (0 + 1) = JS.Normal pos
    /\ V1.CanvasImageData.getPixel image_2x2 (V1.CanvasImageData.width image_2x2) 0
       = V1.CanvasImageData.getPixel image_2x2 0 (0 + 1).
Proof.
  apply (convertCoordsToIndex_at_width image_2x2 0); simpl; lia.
Defined.

(** ** Version 1: writing and reading a pixel *)

Lemma setPixel_wrap (w h : Z) d x y pixelValues :
  ~ refused (wrap w h d) x y ->
  V1.CanvasImageData.setPixel (wrap w h d) x y pixelValues
  = JS.Normal (JS.Undefined, wrap w h (store4 d (y * w * 4 + x * 4, pixelValues))).
Proof. intros H. by rewrite setPixel_accepted. Qed.

Lemma pixel_at_store4 d pos pv :
  0 <= pos -> pos + 3 < Z.of_nat (length d) ->
  Canvas.pixel_at (store4 d (pos, pv)) pos
  = (fun c => JS.Num (JS.of_Z (JS.ToUint8Clamp (JS.ToNumber (JS.item pv c)))))
      <$> [0; 1; 2; 3]%nat.
Proof.
  intros Hpos Hlen. unfold Canvas.pixel_at. cbn [fmap list_fmap].
  pose proof (store4_lookup_in d pos pv 0 Hpos ltac:(lia) ltac:(lia)) as H0.
  pose proof (store4_lookup_in d pos pv 1 Hpos ltac:(lia) ltac:(lia)) as H1.
  pose proof (store4_lookup_in d pos pv 2 Hpos ltac:(lia) ltac:(lia)) as H2.
  pose proof (store4_lookup_in d pos pv 3 Hpos ltac:(lia) ltac:(lia)) as H3.
  replace (pos + Z.of_nat 0) with pos in H0 by lia.
  change (Z.of_nat 1) with 1 in H1. change (Z.of_nat 2) with 2 in H2.
  change (Z.of_nat 3) with 3 in H3.
  rewrite (get_lookup _ _ _ Hpos H0).
  rewrite (get_lookup _ (pos + 1) _ ltac:(lia) H1).
  rewrite (get_lookup _ (pos + 2) _ ltac:(lia) H2).
  by rewrite (get_lookup _ (pos + 3) _ ltac:(lia) H3).
Qed.

Lemma get_store4_out d w i :
  0 <= i -> (i < fst w \/ fst w + 3 < i) ->
  JS.get (store4 d w) i = JS.get d i.
Proof.
  intros Hi Hout. unfold JS.get. rewrite !decide_False by lia.
  by rewrite store4_lookup_out by lia.
Qed.

Lemma pixel_at_store4_out d w pos :
  0 <= pos -> (pos + 3 < fst w \/ fst w + 3 < pos) ->
  Canvas.pixel_at (store4 d w) pos = Canvas.pixel_at d pos.
Proof.
  intros Hpos Hout. unfold Canvas.pixel_at.
  by rewrite !get_store4_out by lia.
Qed.

(** X4.  Round trip: after [setPixel] at an in-range pair, [getPixel] at
    the same pair returns the four values stored, each converted to a byte;
    four bytes are read back as they were written. *)
Theorem setPixel_getPixel (w h : Z) (d : list Z) (x y : Z) (pixelValues : list JS.value) :
  Z.of_nat (length d) = 4 * w * h -> 0 <= x < w -> 0 <= y < h ->
  exists img,
    V1.CanvasImageData.setPixel (wrap w h d) x y pixelValues
    = JS.Normal (JS.Undefined, img)
    /\ V1.CanvasImageData.getPixel img x y
       = JS.Normal (V1.JArray
           ((fun c => JS.Num (JS.of_Z (JS.ToUint8Clamp (JS.ToNumber (JS.item pixelValues c)))))
              <$> [0; 1; 2; 3]%nat))
    /\ forall r g b a,
         pixelValues = [JS.Num (JS.of_Z r); JS.Num (JS.of_Z g);
                        JS.Num (JS.of_Z b); JS.Num (JS.of_Z a)] ->
         is_byte r -> is_byte g -> is_byte b -> is_byte a ->
         V1.CanvasImageData.getPixel img x y = JS.Normal (V1.JArray pixelValues).
Proof.
  intros Hlen Hx Hy.
  assert (~ refused (wrap w h d) x y) as Hacc by (unfold refused; simpl; lia).
  assert (0 <= y * w * 4 + x * 4 /\ y * w * 4 + x * 4 + 3 < 4 * w * h) as Hpos by nia.
  eexists. split; [by apply setPixel_wrap|].
  assert (V1.CanvasImageData.getPixel
            (wrap w h (store4 d (y * w * 4 + x * 4, pixelValues))) x y
          = JS.Normal (V1.JArray
              ((fun c => JS.Num (JS.of_Z (JS.ToUint8Clamp
                                   (JS.ToNumber (JS.item pixelValues c)))))
                 <$> [0; 1; 2; 3]%nat))) as Hget.
  { rewrite getPixel_accepted by (unfold refused; simpl; lia).
    cbn [wrap V1.CanvasImageData.new V1.CanvasImageData.imageData
         V1.CanvasImageData.width Canvas.data Canvas.width].
    rewrite pixel_at_store4 by lia. done. }
  split; [exact Hget|].
  intros r g b a -> Hr Hg Hb Ha. rewrite Hget.
  cbn [fmap list_fmap JS.item lookup list_lookup from_option id JS.ToNumber].
  by rewrite !ToUint8Clamp_byte.
Qed.

Lemma setPixel_getPixel_witness :
  exists img,
    V1.CanvasImageData.setPixel (wrap 2 2 (replicate 16 0)) 1 1
      [JS.Num (JS.of_Z 1); JS.Num (JS.Fin (5 # 2)); JS.Num JS.NaN; JS.Undefined]
    = JS.Normal (JS.Undefined, img)
    /\ V1.CanvasImageData.getPixel img 1 1
       = JS.Normal (V1.JArray
           [JS.Num (JS.of_Z 1); JS.Num (JS.of_Z 2); JS.Num (JS.of_Z 0); JS.Num (JS.of_Z 0)]).
Proof.
  destruct (setPixel_getPixel 2 2 (replicate 16 0) 1 1
              [JS.Num (JS.of_Z 1); JS.Num (JS.Fin (5 # 2)); JS.Num JS.NaN; JS.Undefined])
    as (img & Hset & Hget & _); [reflexivity|lia|lia|].
  exists img. split; [exact Hset|exact Hget].
Defined.

(** X5.  [setPixel] at one in-range pair leaves every other in-range pixel
    as it was. *)
Theorem setPixel_other_pixel (w h : Z) (d : list Z) (x y x' y' : Z)
    (pixelValues : list JS.value) :
  0 <= x < w -> 0 <= y < h -> 0 <= x' < w -> 0 <= y' < h ->
  (x, y) <> (x', y') ->
  exists img,
    V1.CanvasImageData.setPixel (wrap w h d) x y pixelValues
    = JS.Normal (JS.Undefined, img)
    /\ V1.CanvasImageData.getPixel img x' y'
       = V1.CanvasImageData.getPixel (wrap w h d) x' y'.
Proof.
  intros Hx Hy Hx' Hy' Hne.
  eexists. split; [apply setPixel_wrap; unfold refused; simpl; lia|].
  rewrite !getPixel_accepted by (unfold refused; simpl; lia).
  cbn [wrap V1.CanvasImageData.new V1.CanvasImageData.imageData
       V1.CanvasImageData.width Canvas.data Canvas.width].
  rewrite pixel_at_store4_out; [done|nia|].
  cbn [fst].
  destruct (pixels_apart w h x' y' x y) as [?|?]; [done..|congruence|lia|lia].
Qed.

Lemma setPixel_other_pixel_witness :
  exists img,
    V1.CanvasImageData.setPixel (wrap 2 2 (replicate 16 7)) 1 1 []
    = JS.Normal (JS.Undefined, img)
    /\ V1.CanvasImageData.getPixel img 0 1
       = V1.CanvasImageData.getPixel (wrap 2 2 (replicate 16 7)) 0 1.
Proof.
  apply (setPixel_other_pixel 2 2 (replicate 16 7) 1 1 0 1); try lia.
  discriminate.
Defined.

(** X6.  Whatever the coordinates and the values, [setPixel] keeps the
    size of the image and the length of its buffer, and a buffer of bytes
    remains a buffer of bytes. *)
Theorem setPixel_keeps_shape (this : V1.CanvasImageData.t) (x y : Z)
    (pixelValues : list JS.value) :
  exists v img,
    V1.CanvasImageData.setPixel this x y pixelValues = JS.Normal (v, img)
    /\ V1.CanvasImageData.width img = V1.CanvasImageData.width this
    /\ V1.CanvasImageData.height img = V1.CanvasImageData.height this
    /\ length (Canvas.data (V1.CanvasImageData.imageData img))
       = length (Canvas.data (V1.CanvasImageData.imageData this))
    /\ (Forall is_byte (Canvas.data (V1.CanvasImageData.imageData this)) ->
        Forall is_byte (Canvas.data (V1.CanvasImageData.imageData img))).
Proof.
  destruct (refused_dec this x y) as [Hr|Hn].
  - rewrite setPixel_refused by done. by do 2 eexists.
  - rewrite setPixel_accepted by done. do 2 eexists. split; [done|].
    unfold V1.CanvasImageData.store. cbn.
    split; [done|]. split; [done|]. split; [by rewrite !length_set|].
    intros Hb. by repeat apply set_bytes.
Qed.

Lemma setPixel_keeps_shape_witness :
  exists v img,
    V1.CanvasImageData.setPixel image_2x2 1 1 [JS.Num JS.NaN; JS.Undefined] = JS.Normal (v, img)
    /\ V1.CanvasImageData.width img = V1.CanvasImageData.width image_2x2
    /\ V1.CanvasImageData.height img = V1.CanvasImageData.height image_2x2
    /\ length (Canvas.data (V1.CanvasImageData.imageData img))
       = length (Canvas.data (V1.CanvasImageData.imageData image_2x2))
    /\ (Forall is_byte (Canvas.data (V1.CanvasImageData.imageData image_2x2)) ->
        Forall is_byte (Canvas.data (V1.CanvasImageData.imageData img))).
Proof.
  apply (setPixel_keeps_shape image_2x2 1 1).
Defined.

(** ** Passes that read the buffer they write *)

(** A pass stores one pixel per step; from the second pass on the values
    stored depend on the buffer being written.  [posf] gives the position a
    step writes, [valf] the pixel it stores there given the buffer so far. *)
Section Steps.

Context {A : Type}.
Variable posf : A -> Z.
Variable valf : list Z -> A -> list JS.value.

Definition step (d : list Z) (a : A) : list Z := store4 d (posf a, valf d a).

Lemma length_foldl_step ps d : length (foldl step d ps) = length d.
Proof.
  revert d. induction ps as [|a ps IH]; intros d; cbn [foldl]; [done|].
  rewrite IH. apply length_store4.
Qed.

Lemma foldl_step_bytes ps d : Forall is_byte d -> Forall is_byte (foldl step d ps).
Proof.
  revert d. induction ps as [|a ps IH]; intros d Hb; cbn [foldl]; [done|].
  by apply IH, store4_bytes.
Qed.

Lemma foldl_step_lookup_out ps d (j : nat) :
  (forall a, a ∈ ps -> Z.of_nat j < posf a \/ posf a + 3 < Z.of_nat j) ->
  foldl step d ps !! j = d !! j.
Proof.
  revert d. induction ps as [|a ps IH]; intros d Hout; cbn [foldl]; [done|].
  rewrite IH by (intros a' Ha'; apply Hout; by right).
  apply store4_lookup_out. cbn [fst]. apply Hout. by left.
Qed.

(** After the pass, a pixel holds what its own step stored, computed from
    some buffer of the same length. *)
Lemma foldl_step_lookup_in ps d a (c : nat) (Q : Z -> Prop) :
  NoDup (posf <$> ps) ->
  (forall a', a' ∈ ps -> 0 <= posf a' /\ posf a' `mod` 4 = 0) ->
  a ∈ ps -> (c < 4)%nat -> posf a + Z.of_nat c < Z.of_nat (length d) ->
  (forall d', length d' = length d ->
     Q (JS.ToUint8Clamp (JS.ToNumber (JS.item (valf d' a) c)))) ->
  exists b, foldl step d ps !! Z.to_nat (posf a + Z.of_nat c) = Some b /\ Q b.
Proof.
  revert d. induction ps as [|a0 ps IH]; intros d Hnd Hal Hin Hc Hlen HQ.
  - by apply elem_of_nil in Hin.
  - rewrite fmap_cons in Hnd. apply NoDup_cons in Hnd as [Hnotin Hnd].
    cbn [foldl].
    destruct (decide (posf a0 = posf a)) as [Heq|Hne].
    + eexists. split; [|apply (HQ d); done].
      rewrite foldl_step_lookup_out.
      * unfold step. rewrite Heq.
        assert (a0 = a \/ a ∈ ps) as [->|Ha] by (by apply elem_of_cons in Hin as [->|?]; [left|right]).
        -- apply store4_lookup_in; [|done|done]. apply (Hal a). by left.
        -- exfalso. apply Hnotin. rewrite Heq. apply list_elem_of_fmap. by exists a.
      * intros a' Ha'.
        assert (posf a' <> posf a) as Hne.
        { intros Heq'. apply Hnotin. rewrite Heq, <- Heq'.
          apply list_elem_of_fmap. by exists a'. }
        destruct (Hal a') as [? ?]; [by right|].
        destruct (Hal a) as [? ?]; [done|].
        Z.div_mod_to_equations. lia.
    + assert (a ∈ ps) as Ha.
      { apply elem_of_cons in Hin as [->|?]; [done|done]. }
      apply IH; [done| |done|done| |].
      * intros a' Ha'. apply Hal. by right.
      * unfold step. by rewrite length_store4.
      * intros d' Hd'. apply HQ. rewrite Hd'. unfold step. by rewrite length_store4.
Qed.

(** A pass whose every step stores what is already there changes nothing. *)
Lemma foldl_step_fixed ps d :
  (forall a, a ∈ ps -> step d a = d) -> foldl step d ps = d.
Proof.
  induction ps as [|a ps IH]; intros Hfix; cbn [foldl]; [done|].
  rewrite Hfix by (by left). apply IH. intros a' Ha'. apply Hfix. by right.
Qed.

End Steps.

Lemma foldl_invariant {A B} (P : A -> Prop) (f : A -> B -> A) (l : list B) (a : A) :
  (forall a b, P a -> P (f a b)) -> P a -> P (foldl f a l).
Proof.
  intros Hf. revert a. induction l as [|b l IH]; intros a Ha; simpl; [done|].
  by apply IH, Hf.
Qed.

Lemma for_each_invariant {I S} (P : S -> Prop) (body : I -> S -> JS.completion S) xs s :
  (forall x s, P s -> exists s', body x s = JS.Normal s' /\ P s') ->
  P s -> exists s', JS.for_each xs body s = JS.Normal s' /\ P s'.
Proof.
  intros Hbody. revert s.
  induction xs as [|x xs IH]; intros s Hs; simpl; [eauto|].
  destruct (Hbody x s Hs) as (s' & -> & Hs'). simpl. by apply IH.
Qed.

Lemma range_cons lo hi : lo < hi -> JS.range lo hi = lo :: JS.range (lo + 1) hi.
Proof.
  intros Hlt. unfold JS.range. rewrite seqZ_cons by lia.
  do 2 f_equal; lia.
Qed.

Lemma range_nil lo hi : hi <= lo -> JS.range lo hi = [].
Proof. intros Hle. unfold JS.range. apply seqZ_nil. lia. Qed.

(** ** Version 1: whole passes *)

(** The pairs the two loops of a pass go through, in order. *)
Definition grid (w h : Z) : list (Z * Z) :=
  JS.range 0 h ≫= (fun y => (fun x => (x, y)) <$> JS.range 0 w).

Definition v1_pos (w : Z) (p : Z * Z) : Z := snd p * w * 4 + fst p * 4.

(** The heap of [blur] on a w x h image: the original buffer [d0], the
    buffer [d] of [newImage], and the image [this.canvasImageData] is. *)
Definition v1_heap (w h : Z) (d0 : list Z) (r : V1.ref) (d : list Z) : V1.heap :=
  V1.mkHeap (wrap w h d0) (wrap w h d) r.

Definition v1_source (w h : Z) (d0 : list Z) (r : V1.ref) (d : list Z)
  : V1.CanvasImageData.t :=
  match r with V1.Original => wrap w h d0 | V1.NewImage => wrap w h d end.

(** The pixel a step stores, given the buffer of [newImage] so far. *)
Definition v1_val (w h : Z) (d0 : list Z) (r : V1.ref) (d : list Z) (p : Z * Z)
  : list JS.value :=
  Spec.average_pixel (v1_sampled (v1_source w h d0 r d) (fst p) (snd p)).

Lemma elem_of_grid (w h : Z) p : p ∈ grid w h <-> 0 <= fst p < w /\ 0 <= snd p < h.
Proof.
  unfold grid. rewrite list_elem_of_bind. split.
  - intros (y & Hp & Hy). apply list_elem_of_fmap in Hp as (x & -> & Hx).
    apply elem_of_range in Hx, Hy. simpl. lia.
  - intros [Hx Hy]. exists (snd p). split; [|by apply elem_of_range].
    apply list_elem_of_fmap. exists (fst p). split; [by destruct p|].
    by apply elem_of_range.
Qed.

Lemma NoDup_grid (w h : Z) : NoDup (grid w h).
Proof.
  unfold grid. apply NoDup_bind.
  - intros y1 y2 p _ _ Hp1 Hp2.
    apply list_elem_of_fmap in Hp1 as (x1 & -> & _).
    apply list_elem_of_fmap in Hp2 as (x2 & Heq & _). congruence.
  - intros y _. apply NoDup_fmap_2_strong; [|apply NoDup_seqZ].
    intros x1 x2 _ _ Heq. congruence.
  - apply NoDup_seqZ.
Qed.

Lemma NoDup_v1_pos (w h : Z) : NoDup (v1_pos w <$> grid w h).
Proof.
  apply NoDup_fmap_2_strong; [|apply NoDup_grid].
  intros [x y] [x' y'] Hp Hp' Heq.
  apply elem_of_grid in Hp, Hp'. unfold v1_pos in Heq. simpl in *.
  destruct (decide ((x, y) = (x', y'))) as [|Hne]; [done|].
  destruct (pixels_apart w h x y x' y') as [?|?]; [lia..|done|lia|lia].
Qed.

Lemma v1_pos_aligned (w h : Z) p :
  p ∈ grid w h -> 0 <= v1_pos w p /\ v1_pos w p `mod` 4 = 0.
Proof.
  intros Hp. apply elem_of_grid in Hp. unfold v1_pos.
  split; [nia|]. Z.div_mod_to_equations. lia.
Qed.

Lemma v1_pos_inside (w h : Z) p :
  p ∈ grid w h -> v1_pos w p + 3 < 4 * w * h.
Proof. intros Hp. apply elem_of_grid in Hp. unfold v1_pos. nia. Qed.

Lemma v1_blur_pixel_step (w h : Z) d0 r d x y :
  0 <= x < w -> 0 <= y < h ->
  V1.CanvasImage.blur_pixel y x (v1_heap w h d0 r d)
  = JS.Normal (v1_heap w h d0 r (step (v1_pos w) (v1_val w h d0 r) d (x, y))).
Proof.
  intros Hx Hy. unfold V1.CanvasImage.blur_pixel.
  rewrite v1_pixelValue_average. cbn [JS.bind].
  cbn [v1_heap V1.newImage V1.original V1.canvasImageData_ref].
  rewrite setPixel_wrap by (unfold refused; simpl; lia).
  cbn [JS.bind snd]. unfold step, v1_val, v1_pos, v1_source, V1.deref.
  cbn [fst snd V1.canvasImageData_ref V1.original V1.newImage].
  by destruct r.
Qed.

(** One pass, from any buffer of [newImage]. *)
Lemma v1_blur_pass (w h : Z) ctx cid i d0 r d :
  V1.CanvasImage.blur_pass (V1.CanvasImage.mk w h ctx cid) i (v1_heap w h d0 r d)
  = JS.Normal (v1_heap w h d0 V1.NewImage
                 (foldl (step (v1_pos w) (v1_val w h d0 r)) d (grid w h))).
Proof.
  unfold V1.CanvasImage.blur_pass.
  cbn [V1.CanvasImage.width V1.CanvasImage.height].
  rewrite (for_each_foldl_on (v1_heap w h d0 r) _
             (fun d y => foldl (fun d x => step (v1_pos w) (v1_val w h d0 r) d (x, y)) d
                           (JS.range 0 w))).
  - cbn [JS.bind]. rewrite (foldl_bind_fmap (step (v1_pos w) (v1_val w h d0 r))
                              (fun y x => (x, y))).
    reflexivity.
  - intros y d' Hy. apply elem_of_range in Hy.
    apply (for_each_foldl_on (v1_heap w h d0 r)).
    intros x d'' Hx. apply elem_of_range in Hx.
    by apply v1_blur_pixel_step.
Qed.

(** The passes of [blur], from the first on: what holds of the fresh
    buffer and is kept by a pass holds of the result. *)
Lemma v1_blur_passes (w h : Z) pixels passes (P : list Z -> Prop) :
  1 <= w -> 1 <= h -> 1 <= passes ->
  P (replicate (Z.to_nat (4 * w * h)) 0) ->
  (forall r d, length d = Z.to_nat (4 * w * h) -> P d ->
     P (foldl (step (v1_pos w) (v1_val w h pixels r)) d (grid w h))) ->
  exists d,
    V1.CanvasImage.blur (V1.CanvasImage.new w h pixels) passes
    = JS.Normal (V1.CanvasImage.new w h d)
    /\ length d = Z.to_nat (4 * w * h) /\ P d.
Proof.
  intros Hw Hh Hp H0 HP. unfold V1.CanvasImage.blur, V1.CanvasImage.new.
  cbn [V1.CanvasImage.width V1.CanvasImage.height V1.CanvasImage.context
       V1.CanvasImage.canvasImageData].
  rewrite createImageData_normal by done. cbn [JS.bind].
  fold (wrap w h pixels). fold (wrap w h (replicate (Z.to_nat (4 * w * h)) 0)).
  fold (v1_heap w h pixels V1.Original (replicate (Z.to_nat (4 * w * h)) 0)).
  rewrite range_cons by lia. cbn [JS.for_each].
  rewrite v1_blur_pass. cbn [JS.bind].
  destruct (for_each_invariant
              (fun st => exists d, st = v1_heap w h pixels V1.NewImage d
                                   /\ length d = Z.to_nat (4 * w * h) /\ P d)
              (V1.CanvasImage.blur_pass
                 (V1.CanvasImage.mk w h (Canvas.mkContext pixels) (wrap w h pixels)))
              (JS.range (0 + 1) passes)
              (v1_heap w h pixels V1.NewImage
                 (foldl (step (v1_pos w) (v1_val w h pixels V1.Original))
                    (replicate (Z.to_nat (4 * w * h)) 0) (grid w h))))
    as (st & -> & d & -> & Hlen & Hd).
  - intros i st (d & -> & Hlen & Hd). rewrite v1_blur_pass.
    eexists. split; [done|]. eexists. split; [done|].
    split; [by rewrite length_foldl_step|by apply HP].
  - eexists. split; [done|].
    split; [by rewrite length_foldl_step, length_replicate|].
    apply HP; [by rewrite length_replicate|done].
  - cbn [JS.bind]. by exists d.
Qed.

(** X7.  [blur] of version 1 keeps the size of the image: for every number
    of passes the result has the same width and height, and its image data
    is again a w x h image whose buffer has [4 * w * h] bytes. *)
Theorem v1_blur_keeps_shape (w h : Z) (pixels : list Z) (passes : Z) :
  1 <= w -> 1 <= h ->
  Z.of_nat (length pixels) = 4 * w * h -> Forall is_byte pixels ->
  exists r d,
    V1.CanvasImage.blur (V1.CanvasImage.new w h pixels) passes = JS.Normal r
    /\ V1.CanvasImage.width r = w /\ V1.CanvasImage.height r = h
    /\ V1.CanvasImage.canvasImageData r = wrap w h d
    /\ Z.of_nat (length d) = 4 * w * h /\ Forall is_byte d.
Proof.
  intros Hw Hh Hlen Hb.
  destruct (decide (1 <= passes)) as [Hp|Hp].
  - destruct (v1_blur_passes w h pixels passes (Forall is_byte) Hw Hh Hp)
      as (d & Hd & Hl & Hbd).
    + apply Forall_replicate. unfold is_byte. lia.
    + intros r d _ Hd. by apply foldl_step_bytes.
    + exists (V1.CanvasImage.new w h d), d. split; [done|].
      repeat split; [lia|done].
  - exists (V1.CanvasImage.new w h pixels), pixels. split; [|by repeat split].
    unfold V1.CanvasImage.blur, V1.CanvasImage.new.
    cbn [V1.CanvasImage.width V1.CanvasImage.height V1.CanvasImage.context
         V1.CanvasImage.canvasImageData].
    rewrite createImageData_normal by done. cbn [JS.bind].
    by rewrite range_nil by lia.
Qed.

Lemma v1_blur_keeps_shape_witness :
  exists r d,
    V1.CanvasImage.blur (V1.CanvasImage.new 3 3 spot_3x3) 4 = JS.Normal r
    /\ V1.CanvasImage.width r = 3 /\ V1.CanvasImage.height r = 3
    /\ V1.CanvasImage.canvasImageData r = wrap 3 3 d
    /\ Z.of_nat (length d) = 4 * 3 * 3 /\ Forall is_byte d.
Proof.
  apply (v1_blur_keeps_shape 3 3 spot_3x3 4); [lia|lia|reflexivity|].
  unfold is_byte, spot_3x3. repeat (apply Forall_cons; split; [lia|]).
  apply Forall_nil_2.
Defined.

(** A sum that takes in an [undefined] is NaN. *)
Lemma foldl_add_value_NaN vs : foldl JS.add_value JS.NaN vs = JS.NaN.
Proof. induction vs as [|v vs IH]; [done|]. exact IH. Qed.

Lemma foldl_add_value_undefined vs a :
  JS.Undefined ∈ vs -> foldl JS.add_value a vs = JS.NaN.
Proof.
  revert a. induction vs as [|v vs IH]; intros a Hin.
  - by apply elem_of_nil in Hin.
  - apply elem_of_cons in Hin as [<-|Hin]; cbn [foldl].
    + replace (JS.add_value a JS.Undefined) with JS.NaN by (by destruct a).
      apply foldl_add_value_NaN.
    + by apply IH.
Qed.

Lemma channel_average_undefined (c : nat) sampled px :
  px ∈ sampled -> JS.item px c = JS.Undefined ->
  JS.ToUint8Clamp (JS.ToNumber (Spec.channel_average c sampled)) = 0.
Proof.
  intros Hin Hu. unfold Spec.channel_average, Spec.channel_sum.
  rewrite foldl_add_value_undefined; [done|].
  rewrite <- Hu. apply list_elem_of_fmap. by exists px.
Qed.

Lemma channel_average_NaN (c : nat) sampled px :
  px ∈ sampled -> JS.item px c = JS.Undefined ->
  Spec.channel_average c sampled = JS.Num JS.NaN.
Proof.
  intros Hin Hu. unfold Spec.channel_average, Spec.channel_sum.
  rewrite foldl_add_value_undefined; [done|].
  rewrite <- Hu. apply list_elem_of_fmap. by exists px.
Qed.

(** In the last row the pair below the pixel passes the test of
    [convertCoordsToIndex] and is read past the end of the buffer. *)
Lemma v1_last_row_undefined (w h : Z) d x (c : nat) :
  1 <= h -> 0 <= x < w -> (c < 4)%nat -> Z.of_nat (length d) = 4 * w * h ->
  JS.ToUint8Clamp (JS.ToNumber
    (Spec.channel_average c (v1_sampled (wrap w h d) x (h - 1)))) = 0.
Proof.
  intros Hh Hx Hc Hlen.
  apply (channel_average_undefined c _ (v1_pixel_read (wrap w h d) (x, h - 1 + 1))).
  - unfold v1_sampled. apply list_elem_of_fmap. eexists. split; [done|].
    apply list_elem_of_filter. split.
    + unfold v1_passes, refused. simpl. lia.
    + unfold V1.CanvasImage.surroundingPixels. in_list.
  - unfold v1_pixel_read, Canvas.pixel_at. cbn.
    assert (forall k, 0 <= k -> JS.get d ((h - 1 + 1) * w * 4 + x * 4 + k) = JS.Undefined)
      as Hout.
    { intros k Hk. unfold JS.get. rewrite decide_False by nia.
      by rewrite lookup_ge_None_2 by nia. }
    destruct c as [|[|[|[|c]]]]; [| | | |lia]; cbn.
    + rewrite <- (Hout 0) by lia. f_equal. lia.
    + by apply Hout.
    + by apply Hout.
    + by apply Hout.
Qed.

(** There every channel of the average is NaN, in every image. *)
Lemma v1_last_row_average_NaN (w h : Z) d x (c : nat) :
  1 <= h -> 0 <= x < w -> (c < 4)%nat -> Z.of_nat (length d) = 4 * w * h ->
  Spec.channel_average c (v1_sampled (wrap w h d) x (h - 1)) = JS.Num JS.NaN.
Proof.
  intros Hh Hx Hc Hlen.
  apply (channel_average_NaN c _ (v1_pixel_read (wrap w h d) (x, h - 1 + 1))).
  - unfold v1_sampled. apply list_elem_of_fmap. eexists. split; [done|].
    apply list_elem_of_filter. split.
    + unfold v1_passes, refused. simpl. lia.
    + unfold V1.CanvasImage.surroundingPixels. in_list.
  - unfold v1_pixel_read, Canvas.pixel_at. cbn.
    assert (forall k, 0 <= k -> JS.get d ((h - 1 + 1) * w * 4 + x * 4 + k) = JS.Undefined)
      as Hout.
    { intros k Hk. unfold JS.get. rewrite decide_False by nia.
      by rewrite lookup_ge_None_2 by nia. }
    destruct c as [|[|[|[|c]]]]; [| | | |lia]; cbn.
    + rewrite <- (Hout 0) by lia. f_equal. lia.
    + by apply Hout.
    + by apply Hout.
    + by apply Hout.
Qed.

(** X8.  After [blur] of version 1 with at least one pass, every channel of
    every pixel of the last row is 0, whatever the image was. *)
Theorem v1_blur_last_row_zero (w h : Z) (pixels : list Z) (passes : Z) :
  1 <= w -> 1 <= h -> 1 <= passes ->
  Z.of_nat (length pixels) = 4 * w * h ->
  exists r,
    V1.CanvasImage.blur (V1.CanvasImage.new w h pixels) passes = JS.Normal r
    /\ forall x (c : nat),
         0 <= x < w -> (c < 4)%nat ->
         Canvas.data (V1.CanvasImageData.imageData (V1.CanvasImage.canvasImageData r))
           !! Z.to_nat (Box.position w (x, h - 1) + Z.of_nat c) = Some 0.
Proof.
  intros Hw Hh Hp Hlen.
  destruct (v1_blur_passes w h pixels passes
              (fun d => forall x (c : nat), 0 <= x < w -> (c < 4)%nat ->
                 d !! Z.to_nat (v1_pos w (x, h - 1) + Z.of_nat c) = Some 0)
              Hw Hh Hp) as (d & Hd & Hl & Hz).
  - intros x c Hx Hc. apply lookup_replicate_2. unfold v1_pos. simpl. nia.
  - intros r d Hl _ x c Hx Hc.
    destruct (foldl_step_lookup_in (v1_pos w) (v1_val w h pixels r) (grid w h) d
                (x, h - 1) c (fun b => b = 0)) as (b & Hb & ->); [..|done].
    + apply NoDup_v1_pos.
    + intros a Ha. by apply (v1_pos_aligned w h).
    + apply elem_of_grid. simpl. lia.
    + done.
    + unfold v1_pos. simpl. nia.
    + intros d' Hd'. unfold v1_val.
      cbn [fst snd Spec.average_pixel].
      replace (JS.item _ c) with
        (Spec.channel_average c (v1_sampled (v1_source w h pixels r d') x (h - 1)))
        by (by destruct c as [|[|[|[|c]]]]; [..|lia]).
      destruct r; apply v1_last_row_undefined; try done; lia.
  - eexists. split; [exact Hd|]. intros x c Hx Hc.
    cbn. unfold Box.position. cbn [fst snd].
    replace (((h - 1) * w + x) * 4) with (v1_pos w (x, h - 1))
      by (unfold v1_pos; simpl; lia).
    by apply Hz.
Qed.

Lemma v1_blur_last_row_zero_witness :
  exists r,
    V1.CanvasImage.blur (V1.CanvasImage.new 3 3 spot_3x3) 2 = JS.Normal r
    /\ forall x (c : nat),
         0 <= x < 3 -> (c < 4)%nat ->
         Canvas.data (V1.CanvasImageData.imageData (V1.CanvasImage.canvasImageData r))
           !! Z.to_nat (Box.position 3 (x, 3 - 1) + Z.of_nat c) = Some 0.
Proof.
  apply (v1_blur_last_row_zero 3 3 spot_3x3 2); [lia|lia|lia|reflexivity].
Defined.

Lemma filter_ext_in {A} (P1 P2 : A -> Prop) `{forall a, Decision (P1 a)}
    `{forall a, Decision (P2 a)} (l : list A) :
  (forall a, a ∈ l -> P1 a <-> P2 a) -> filter P1 l = filter P2 l.
Proof.
  induction l as [|a l IH]; intros Hiff; [done|].
  assert (filter P1 l = filter P2 l) as Hl
    by (apply IH; intros a' Ha'; apply Hiff; by right).
  destruct (decide (P1 a)) as [H1|H1].
  - rewrite !filter_cons_True by (done || (apply Hiff; [by left|done])).
    by rewrite Hl.
  - rewrite !filter_cons_False; [done| |done].
    intros H2. apply H1. apply Hiff; [by left|done].
Qed.

Lemma v1_blur_once (w h : Z) pixels :
  1 <= w -> 1 <= h ->
  V1.CanvasImage.blur (V1.CanvasImage.new w h pixels) 1
  = JS.Normal
      (V1.CanvasImage.new w h
         (foldl (step (v1_pos w) (v1_val w h pixels V1.Original))
            (replicate (Z.to_nat (4 * w * h)) 0) (grid w h))).
Proof.
  intros Hw Hh. unfold V1.CanvasImage.blur, V1.CanvasImage.new.
  cbn [V1.CanvasImage.width V1.CanvasImage.height V1.CanvasImage.context
       V1.CanvasImage.canvasImageData].
  rewrite createImageData_normal by done. cbn [JS.bind].
  fold (wrap w h pixels). fold (wrap w h (replicate (Z.to_nat (4 * w * h)) 0)).
  fold (v1_heap w h pixels V1.Original (replicate (Z.to_nat (4 * w * h)) 0)).
  change (JS.range 0 1) with [0]. cbn [JS.for_each].
  rewrite v1_blur_pass. reflexivity.
Qed.

(** Away from the last column and the last row the pairs that pass the test
    of [convertCoordsToIndex] are those inside the image. *)
Lemma v1_sampled_positions_inside (w h : Z) pixels x y :
  0 <= x -> x + 1 < w -> 0 <= y -> y + 1 < h ->
  v1_sampled_positions (wrap w h pixels) x y
  = Box.position w <$> filter (Box.inside w h) (V1.CanvasImage.surroundingPixels x y).
Proof.
  intros Hx1 Hx2 Hy1 Hy2. unfold v1_sampled_positions.
  rewrite (filter_ext_in (v1_passes (wrap w h pixels)) (Box.inside w h)).
  - apply list_fmap_ext. intros i [x' y'] _. unfold Box.position. simpl. lia.
  - intros [x' y'] Hp. unfold v1_passes, refused, Box.inside. simpl.
    unfold V1.CanvasImage.surroundingPixels in Hp.
    repeat (apply elem_of_cons in Hp as [Hp|Hp]; [injection Hp as -> ->; lia|]).
    by apply elem_of_nil in Hp.
Qed.

(** X9.  One pass of [blur] of version 1 stores in each channel of each
    pixel the byte of the average of that channel over the pixels sampled
    around it in the original image.  For a pixel outside the last column
    and the last row this is the mean over those of the eight listed pairs
    that lie in the image; the pixel itself is listed and its right
    neighbour is not. *)
Theorem v1_blur_one_pass (w h : Z) (pixels : list Z) :
  1 <= w -> 1 <= h -> Z.of_nat (length pixels) = 4 * w * h ->
  exists r,
    V1.CanvasImage.blur (V1.CanvasImage.new w h pixels) 1 = JS.Normal r
    /\ (forall x y (c : nat),
          0 <= x < w -> 0 <= y < h -> (c < 4)%nat ->
          Canvas.data (V1.CanvasImageData.imageData (V1.CanvasImage.canvasImageData r))
            !! Z.to_nat (Box.position w (x, y) + Z.of_nat c)
          = Some (JS.ToUint8Clamp (JS.ToNumber
                    (Spec.channel_average c (v1_sampled (wrap w h pixels) x y)))))
    /\ (forall x y (c : nat),
          0 <= x -> x + 1 < w -> 0 <= y -> y + 1 < h -> (c < 4)%nat ->
          Canvas.data (V1.CanvasImageData.imageData (V1.CanvasImage.canvasImageData r))
            !! Z.to_nat (Box.position w (x, y) + Z.of_nat c)
          = Some (JS.ToUint8Clamp
                    (Box.mean w pixels c
                       (filter (Box.inside w h) (V1.CanvasImage.surroundingPixels x y)))))
    /\ (forall x y,
          (x, y) ∈ V1.CanvasImage.surroundingPixels x y
          /\ (x + 1, y) ∉ V1.CanvasImage.surroundingPixels x y).
Proof.
  intros Hw Hh Hlen. eexists. split; [by apply v1_blur_once|].
  cbn [V1.CanvasImage.new V1.CanvasImage.canvasImageData
       V1.CanvasImageData.new V1.CanvasImageData.imageData Canvas.data].
  assert (forall x y (c : nat),
    0 <= x < w -> 0 <= y < h -> (c < 4)%nat ->
    foldl (step (v1_pos w) (v1_val w h pixels V1.Original))
      (replicate (Z.to_nat (4 * w * h)) 0) (grid w h)
      !! Z.to_nat (Box.position w (x, y) + Z.of_nat c)
    = Some (JS.ToUint8Clamp (JS.ToNumber
              (Spec.channel_average c (v1_sampled (wrap w h pixels) x y))))) as Hall.
  { intros x y c Hx Hy Hc.
    replace (Box.position w (x, y)) with (v1_pos w (x, y))
      by (unfold Box.position, v1_pos; simpl; lia).
    destruct (foldl_step_lookup_in (v1_pos w) (v1_val w h pixels V1.Original)
                (grid w h) (replicate (Z.to_nat (4 * w * h)) 0) (x, y) c
                (fun b => b = JS.ToUint8Clamp (JS.ToNumber
                   (Spec.channel_average c (v1_sampled (wrap w h pixels) x y)))))
      as (b & Hb & ->); [..|done].
    - apply NoDup_v1_pos.
    - intros a Ha. by apply (v1_pos_aligned w h).
    - apply elem_of_grid. simpl. lia.
    - done.
    - rewrite length_replicate.
      pose proof (v1_pos_inside w h (x, y)) as Hin.
      rewrite elem_of_grid in Hin. simpl in Hin. lia.
    - intros d' _. unfold v1_val, v1_source. cbn [fst snd].
      by destruct c as [|[|[|[|c]]]]; [..|lia]. }
  split; [exact Hall|]. split.
  - intros x y c Hx1 Hx2 Hy1 Hy2 Hc.
    rewrite Hall by (done || lia).
    rewrite v1_average_exact by done. cbn zeta. cbn [JS.ToNumber].
    rewrite v1_sampled_positions_inside by done.
    unfold Box.mean, bytes_at. rewrite <- list_fmap_compose.
    by rewrite !length_fmap.
  - intros x y. split.
    + unfold V1.CanvasImage.surroundingPixels. rewrite Z.mul_1_r. in_list.
    + intros Hin. unfold V1.CanvasImage.surroundingPixels in Hin.
      repeat (apply elem_of_cons in Hin as [Hin|Hin]; [injection Hin; lia|]).
      by apply elem_of_nil in Hin.
Qed.

Lemma v1_blur_one_pass_witness :
  exists r,
    V1.CanvasImage.blur (V1.CanvasImage.new 3 3 spot_3x3) 1 = JS.Normal r
    /\ (forall x y (c : nat),
          0 <= x < 3 -> 0 <= y < 3 -> (c < 4)%nat ->
          Canvas.data (V1.CanvasImageData.imageData (V1.CanvasImage.canvasImageData r))
            !! Z.to_nat (Box.position 3 (x, y) + Z.of_nat c)
          = Some (JS.ToUint8Clamp (JS.ToNumber
                    (Spec.channel_average c (v1_sampled (wrap 3 3 spot_3x3) x y)))))
    /\ (forall x y (c : nat),
          0 <= x -> x + 1 < 3 -> 0 <= y -> y + 1 < 3 -> (c < 4)%nat ->
          Canvas.data (V1.CanvasImageData.imageData (V1.CanvasImage.canvasImageData r))
            !! Z.to_nat (Box.position 3 (x, y) + Z.of_nat c)
          = Some (JS.ToUint8Clamp
                    (Box.mean 3 spot_3x3 c
                       (filter (Box.inside 3 3) (V1.CanvasImage.surroundingPixels x y)))))
    /\ (forall x y,
          (x, y) ∈ V1.CanvasImage.surroundingPixels x y
          /\ (x + 1, y) ∉ V1.CanvasImage.surroundingPixels x y).
Proof.
  apply (v1_blur_one_pass 3 3 spot_3x3); [lia|lia|reflexivity].
Defined.

(** ** Version 2: whole passes *)

Definition v2_heap (w h : Z) (d0 : list Z) (r : V2.ref) (d : list Z) : V2.heap :=
  V2.mkHeap (Canvas.mkImageData w h d0) (Canvas.mkImageData w h d) r.

Definition v2_source (d0 : list Z) (r : V2.ref) (d : list Z) : list Z :=
  match r with V2.Original => d0 | V2.NewImage => d end.

Definition v2_val (len width : Z) (d0 : list Z) (r : V2.ref) (d : list Z) (pos : Z)
  : list JS.value :=
  V2.CanvasImage.pixelValue (v2_source d0 r d) len width pos.

(** One pass, from any buffer of [newImage]. *)
Lemma v2_blur_pass (w h len width : Z) d0 r d i :
  V2.CanvasImage.blur_pass len width (v2_heap w h d0 r d) i
  = v2_heap w h d0 V2.NewImage
      (foldl (step id (v2_val len width d0 r)) d (V2.CanvasImage.positions len)).
Proof.
  unfold V2.CanvasImage.blur_pass.
  assert (forall ps d,
    foldl (V2.CanvasImage.blur_pixel len width) (v2_heap w h d0 r d) ps
    = v2_heap w h d0 r (foldl (step id (v2_val len width d0 r)) d ps)) as Hfold.
  { induction ps as [|pos ps IH]; intros d'; [done|].
    cbn [foldl]. rewrite <- IH. f_equal. by destruct r. }
  by rewrite Hfold.
Qed.

(** The passes of [blur], from the first on. *)
Lemma v2_blur_passes (w h : Z) pixels passes (P : list Z -> Prop) :
  1 <= w -> 1 <= h -> 1 <= passes ->
  let len := Z.of_nat (length pixels) in
  P (foldl (step id (v2_val len (w * 4) pixels V2.Original))
       (replicate (Z.to_nat (4 * w * h)) 0) (V2.CanvasImage.positions len)) ->
  (forall d, P d ->
     P (foldl (step id (v2_val len (w * 4) pixels V2.NewImage)) d
          (V2.CanvasImage.positions len))) ->
  exists d,
    V2.CanvasImage.blur (V2.CanvasImage.new w h pixels) passes
    = JS.Normal (V2.CanvasImage.new w h d)
    /\ P d.
Proof.
  intros Hw Hh Hp len H1 HP. unfold V2.CanvasImage.blur, V2.CanvasImage.new.
  cbn [V2.CanvasImage.width V2.CanvasImage.height V2.CanvasImage.context
       V2.CanvasImage.imageData Canvas.data].
  rewrite createImageData_normal by done. cbn [JS.bind].
  fold (v2_heap w h pixels V2.Original (replicate (Z.to_nat (4 * w * h)) 0)).
  rewrite range_cons by lia. cbn [foldl]. rewrite v2_blur_pass. fold len.
  pose proof (foldl_invariant
                (fun st => exists d, st = v2_heap w h pixels V2.NewImage d /\ P d)
                (V2.CanvasImage.blur_pass len (w * 4)) (JS.range (0 + 1) passes)
                (v2_heap w h pixels V2.NewImage
                   (foldl (step id (v2_val len (w * 4) pixels V2.Original))
                      (replicate (Z.to_nat (4 * w * h)) 0)
                      (V2.CanvasImage.positions len)))) as Hinv.
  destruct Hinv as (d & -> & Hd).
  - intros st i (d & -> & Hd). rewrite v2_blur_pass. eexists. split; [done|].
    by apply HP.
  - by eexists.
  - by exists d.
Qed.

Lemma v2_blur_no_pass (this : V2.CanvasImage.t) passes :
  passes <= 0 -> V2.CanvasImage.width this <> 0 -> V2.CanvasImage.height this <> 0 ->
  V2.CanvasImage.blur this passes = JS.Normal (V2.CanvasImage.redraw this).
Proof.
  intros Hp Hw Hh. unfold V2.CanvasImage.blur, Canvas.createImageData.
  rewrite decide_False by lia. cbn [JS.bind].
  rewrite range_nil by lia. by destruct this.
Qed.

Lemma v1_blur_no_pass (this : V1.CanvasImage.t) passes :
  passes <= 0 -> V1.CanvasImage.width this <> 0 -> V1.CanvasImage.height this <> 0 ->
  V1.CanvasImage.blur this passes = JS.Normal (V1.CanvasImage.redraw this).
Proof.
  intros Hp Hw Hh. unfold V1.CanvasImage.blur, Canvas.createImageData.
  rewrite decide_False by lia. cbn [JS.bind].
  rewrite range_nil by lia. by destruct this.
Qed.

(** X10.  With no pass to run (a pass count of zero or less) [blur]
    leaves the image data of a non-empty image as it is, in both versions,
    and redraws the canvas from it. *)
Theorem blur_without_pass :
  (forall (this : V1.CanvasImage.t) (passes : Z),
      passes <= 0 ->
      V1.CanvasImage.width this <> 0 -> V1.CanvasImage.height this <> 0 ->
      exists r,
        V1.CanvasImage.blur this passes = JS.Normal r
        /\ V1.CanvasImage.canvasImageData r = V1.CanvasImage.canvasImageData this
        /\ Canvas.bitmap (V1.CanvasImage.context r)
           = Canvas.data (V1.CanvasImageData.imageData (V1.CanvasImage.canvasImageData this)))
  /\ (forall (this : V2.CanvasImage.t) (passes : Z),
      passes <= 0 ->
      V2.CanvasImage.width this <> 0 -> V2.CanvasImage.height this <> 0 ->
      exists r,
        V2.CanvasImage.blur this passes = JS.Normal r
        /\ V2.CanvasImage.imageData r = V2.CanvasImage.imageData this
        /\ Canvas.bitmap (V2.CanvasImage.context r)
           = Canvas.data (V2.CanvasImage.imageData this)).
Proof.
  split; intros this passes Hp Hw Hh; eexists.
  - by rewrite v1_blur_no_pass.
  - by rewrite v2_blur_no_pass.
Qed.

Lemma blur_without_pass_witness :
  (exists r,
      V1.CanvasImage.blur (V1.CanvasImage.mk 1 1 (Canvas.mkContext []) image_1x1) (-2)
      = JS.Normal r
      /\ V1.CanvasImage.canvasImageData r = image_1x1
      /\ Canvas.bitmap (V1.CanvasImage.context r)
         = Canvas.data (V1.CanvasImageData.imageData image_1x1))
  /\ (exists r,
      V2.CanvasImage.blur
        (V2.CanvasImage.mk 1 1 (Canvas.mkContext []) (Canvas.mkImageData 1 1 [1; 2; 3; 4])) 0
      = JS.Normal r
      /\ V2.CanvasImage.imageData r = Canvas.mkImageData 1 1 [1; 2; 3; 4]
      /\ Canvas.bitmap (V2.CanvasImage.context r) = [1; 2; 3; 4]).
Proof.
  split.
  - apply (proj1 blur_without_pass
             (V1.CanvasImage.mk 1 1 (Canvas.mkContext []) image_1x1) (-2));
      simpl; lia.
  - apply (proj2 blur_without_pass
             (V2.CanvasImage.mk 1 1 (Canvas.mkContext [])
                (Canvas.mkImageData 1 1 [1; 2; 3; 4])) 0); simpl; lia.
Defined.

(** X11.  [blur] of version 2 keeps the size of the image: for every number
    of passes the result has the same width and height, and its image data
    is again a w x h image whose buffer has [4 * w * h] bytes. *)
Theorem v2_blur_keeps_shape (w h : Z) (pixels : list Z) (passes : Z) :
  1 <= w -> 1 <= h ->
  Z.of_nat (length pixels) = 4 * w * h -> Forall is_byte pixels ->
  exists r d,
    V2.CanvasImage.blur (V2.CanvasImage.new w h pixels) passes = JS.Normal r
    /\ V2.CanvasImage.width r = w /\ V2.CanvasImage.height r = h
    /\ V2.CanvasImage.imageData r = Canvas.mkImageData w h d
    /\ Z.of_nat (length d) = 4 * w * h /\ Forall is_byte d.
Proof.
  intros Hw Hh Hlen Hb.
  destruct (decide (1 <= passes)) as [Hp|Hp].
  - destruct (v2_blur_passes w h pixels passes
                (fun d => Z.of_nat (length d) = 4 * w * h /\ Forall is_byte d)
                Hw Hh Hp) as (d & Hd & Hl & Hbd).
    + split.
      * rewrite length_foldl_step, length_replicate. lia.
      * apply foldl_step_bytes, Forall_replicate. unfold is_byte. lia.
    + intros d [Hl Hbd]. split.
      * by rewrite length_foldl_step.
      * by apply foldl_step_bytes.
    + exists (V2.CanvasImage.new w h d), d. split; [done|]. by repeat split.
  - exists (V2.CanvasImage.new w h pixels), pixels. split; [|by repeat split].
    rewrite v2_blur_no_pass by (simpl; lia). reflexivity.
Qed.

Lemma v2_blur_keeps_shape_witness :
  exists r d,
    V2.CanvasImage.blur (V2.CanvasImage.new 3 3 spot_3x3) 4 = JS.Normal r
    /\ V2.CanvasImage.width r = 3 /\ V2.CanvasImage.height r = 3
    /\ V2.CanvasImage.imageData r = Canvas.mkImageData 3 3 d
    /\ Z.of_nat (length d) = 4 * 3 * 3 /\ Forall is_byte d.
Proof.
  apply (v2_blur_keeps_shape 3 3 spot_3x3 4); [lia|lia|reflexivity|].
  unfold is_byte, spot_3x3. repeat (apply Forall_cons; split; [lia|]).
  apply Forall_nil_2.
Defined.

(** ** Version 2: an image of one colour *)

(** Every pixel of the buffer has the channels [colour 0 .. colour 3]. *)
Definition is_flat (colour : nat -> Z) (d : list Z) : Prop :=
  forall pos (c : nat),
    pos `mod` 4 = 0 -> 0 <= pos -> pos + 3 < Z.of_nat (length d) -> (c < 4)%nat ->
    d !! Z.to_nat (pos + Z.of_nat c) = Some (colour c).

Lemma foldr_add_const {A} (f : A -> Z) (v : Z) (l : list A) :
  (forall a, a ∈ l -> f a = v) ->
  foldr Z.add 0 (f <$> l) = Z.of_nat (length l) * v.
Proof.
  induction l as [|a l IH]; intros Hf; [simpl; lia|].
  rewrite fmap_cons. cbn [foldr length].
  rewrite IH by (intros a' Ha'; apply Hf; by right).
  rewrite (Hf a) by (by left). lia.
Qed.

Lemma surroundingPixels_aligned pos w sp :
  pos `mod` 4 = 0 -> sp ∈ V2.CanvasImage.surroundingPixels pos (w * 4) ->
  sp `mod` 4 = 0.
Proof.
  intros Hpos Hsp. unfold V2.CanvasImage.surroundingPixels in Hsp.
  repeat (apply elem_of_cons in Hsp as [->|Hsp]);
    [..|by apply elem_of_nil in Hsp]; Z.div_mod_to_equations; lia.
Qed.

(** Around every pixel of a one-colour image the average is that colour. *)
Lemma v2_average_flat (w h : Z) pixels colour pos (c : nat) :
  1 <= w -> 1 <= h -> Z.of_nat (length pixels) = 4 * w * h ->
  is_flat colour pixels -> is_byte (colour c) ->
  pos ∈ V2.CanvasImage.positions (4 * w * h) -> (c < 4)%nat ->
  JS.ToUint8Clamp (JS.ToNumber
    (Spec.channel_average c (v2_sampled pixels (4 * w * h) (w * 4) pos)))
  = colour c.
Proof.
  intros Hw Hh Hlen Hflat Hbyte Hpos Hc.
  rewrite v2_average_exact by done. cbn zeta. cbn [JS.ToNumber].
  pose proof (v2_samples_some_pixel w h pixels pos Hw Hh Hpos) as Hsome.
  unfold v2_sampled in Hsome. rewrite length_fmap in Hsome.
  fold (v2_sampled_positions (4 * w * h) (w * 4) pos) in Hsome.
  unfold bytes_at.
  rewrite (foldr_add_const _ (colour c)).
  - apply ToUint8Clamp_mean_of_equal; [lia|done].
  - intros sp Hsp. unfold v2_sampled_positions in Hsp.
    apply list_elem_of_filter in Hsp as [Hb Hsp].
    destruct (proj2 (v2_accesses_inside_buffer w h pos Hw Hh Hpos) sp Hsp Hb)
      as [H0 H3].
    rewrite Hflat; [done| |lia|lia|done].
    apply (surroundingPixels_aligned pos w); [|done].
    by apply elem_of_positions in Hpos as [? _].
Qed.

Lemma v2_val_item len width d0 r d pos (c : nat) :
  (c < 4)%nat ->
  JS.item (v2_val len width d0 r d pos) c
  = Spec.channel_average c (v2_sampled (v2_source d0 r d) len width pos).
Proof.
  intros Hc. unfold v2_val. rewrite v2_pixelValue_average.
  by destruct c as [|[|[|[|c]]]]; [..|lia].
Qed.

(** Every byte of a buffer belongs to one pixel position. *)
Lemma index_position (len : Z) (i : nat) :
  len `mod` 4 = 0 -> Z.of_nat i < len ->
  exists pos (c : nat),
    pos ∈ V2.CanvasImage.positions len /\ (c < 4)%nat
    /\ i = Z.to_nat (pos + Z.of_nat c).
Proof.
  intros Hlen Hi.
  exists (4 * (Z.of_nat i `div` 4)), (Z.to_nat (Z.of_nat i `mod` 4)).
  split; [|split].
  - apply elem_of_positions. Z.div_mod_to_equations. lia.
  - Z.div_mod_to_equations. lia.
  - Z.div_mod_to_equations. lia.
Qed.

(** X12.  [blur] of version 2 leaves an image of one colour exactly as it
    is, for every number of passes. *)
Theorem v2_blur_flat_image (w h : Z) (pixels : list Z) (colour : nat -> Z) (passes : Z) :
  1 <= w -> 1 <= h -> Z.of_nat (length pixels) = 4 * w * h ->
  (forall c, (c < 4)%nat -> is_byte (colour c)) ->
  is_flat colour pixels ->
  V2.CanvasImage.blur (V2.CanvasImage.new w h pixels) passes
  = JS.Normal (V2.CanvasImage.new w h pixels).
Proof.
  intros Hw Hh Hlen Hbyte Hflat.
  destruct (decide (1 <= passes)) as [Hp|Hp];
    [|by rewrite v2_blur_no_pass by (simpl; lia)].
  destruct (v2_blur_passes w h pixels passes (fun d => d = pixels) Hw Hh Hp)
    as (d & Hd & ->); [| |done]; cbn zeta; rewrite Hlen.
  - apply list_eq. intros i.
    destruct (decide (Z.of_nat i < 4 * w * h)) as [Hi|Hi].
    + destruct (index_position (4 * w * h) i) as (pos & c & Hpos & Hc & ->);
        [Z.div_mod_to_equations; lia|done|].
      pose proof (proj1 (elem_of_positions _ _) Hpos) as [Hmod Hrange].
      destruct (foldl_step_lookup_in id
                  (v2_val (4 * w * h) (w * 4) pixels V2.Original)
                  (V2.CanvasImage.positions (4 * w * h))
                  (replicate (Z.to_nat (4 * w * h)) 0) pos c
                  (fun b => b = colour c)) as (b & Hb & ->).
      * rewrite list_fmap_id. apply NoDup_positions.
      * intros a Ha. apply elem_of_positions in Ha. unfold id. lia.
      * done.
      * done.
      * rewrite length_replicate. unfold id. Z.div_mod_to_equations. lia.
      * intros d' _. rewrite v2_val_item by done.
        apply v2_average_flat; auto.
      * change (id pos) with pos in Hb. rewrite Hb. symmetry.
        apply Hflat; [done|lia| |done]. Z.div_mod_to_equations. lia.
    + rewrite !lookup_ge_None_2; [done|lia|].
      rewrite length_foldl_step, length_replicate. lia.
  - intros d ->. apply foldl_step_fixed. intros pos Hpos.
    pose proof (proj1 (elem_of_positions _ _) Hpos) as [Hmod Hrange].
    assert (forall c : nat, (c < 4)%nat ->
      pixels !! Z.to_nat (pos + Z.of_nat c)
      = Some (JS.ToUint8Clamp (JS.ToNumber
                (JS.item (v2_val (4 * w * h) (w * 4) pixels V2.NewImage pixels pos) c))))
      as Hsame.
    { intros c Hc. rewrite v2_val_item by done. cbn [v2_source].
      rewrite (v2_average_flat w h pixels colour) by auto.
      apply Hflat; [done|lia| |done]. Z.div_mod_to_equations. lia. }
    unfold step, store4, id. cbn [fst snd].
    pose proof (Hsame 0%nat ltac:(lia)) as H0.
    replace (pos + Z.of_nat 0) with pos in H0 by lia.
    rewrite (set_same pixels pos) by (lia || done).
    rewrite (set_same pixels (pos + 1)) by (lia || apply (Hsame 1%nat); lia).
    rewrite (set_same pixels (pos + 2)) by (lia || apply (Hsame 2%nat); lia).
    by rewrite (set_same pixels (pos + 3)) by (lia || apply (Hsame 3%nat); lia).
Qed.

Lemma v2_blur_flat_image_witness :
  V2.CanvasImage.blur
    (V2.CanvasImage.new 2 1 [10; 20; 30; 40; 10; 20; 30; 40]) 3
  = JS.Normal (V2.CanvasImage.new 2 1 [10; 20; 30; 40; 10; 20; 30; 40]).
Proof.
  apply (v2_blur_flat_image 2 1 _ (fun c => 10 * (Z.of_nat c + 1)));
    [lia|lia|reflexivity| |].
  - intros c Hc. unfold is_byte. lia.
  - intros pos c Hmod H0 H3 Hc. simpl in H3.
    assert (pos = 0 \/ pos = 4) as [->| ->] by (Z.div_mod_to_equations; lia);
      by destruct c as [|[|[|[|c]]]]; [..|lia].
Defined.

(** ** Version 2: neighbours across rows *)

(** X13.  Version 2 takes its neighbours in the flat buffer.  For the first
    pixel of a row other than the first, the "middle left" position
    [pos - 4] passes the bounds test and is the last pixel of the row
    above; for the last pixel of a row other than the last, the "middle
    right" position [pos + 4] passes it and is the first pixel of the row
    below. *)
Theorem v2_samples_across_rows (w h y : Z) :
  1 <= w -> 0 <= y < h ->
  (1 <= y ->
   let pos := Box.position w (0, y) in
   pos - 4 ∈ v2_sampled_positions (4 * w * h) (w * 4) pos
   /\ pos - 4 = Box.position w (w - 1, y - 1))
  /\ (y + 1 < h ->
      let pos := Box.position w (w - 1, y) in
      pos + 4 ∈ v2_sampled_positions (4 * w * h) (w * 4) pos
      /\ pos + 4 = Box.position w (0, y + 1)).
Proof.
  intros Hw Hy. unfold v2_sampled_positions, Box.position. cbn [fst snd].
  split; intros Hy'; cbn zeta; (split; [|lia]);
    apply list_elem_of_filter; (split; [apply in_buffer_true; nia|]);
    unfold V2.CanvasImage.surroundingPixels; in_list.
Qed.

Lemma v2_samples_across_rows_witness :
  (let pos := Box.position 3 (0, 1) in
   pos - 4 ∈ v2_sampled_positions (4 * 3 * 3) (3 * 4) pos
   /\ pos - 4 = Box.position 3 (3 - 1, 1 - 1))
  /\ (let pos := Box.position 3 (3 - 1, 1) in
      pos + 4 ∈ v2_sampled_positions (4 * 3 * 3) (3 * 4) pos
      /\ pos + 4 = Box.position 3 (0, 1 + 1)).
Proof.
  split.
  - apply (proj1 (v2_samples_across_rows 3 3 1 ltac:(lia) ltac:(lia))). lia.
  - apply (proj2 (v2_samples_across_rows 3 3 1 ltac:(lia) ltac:(lia))). lia.
Defined.

(** ** Versions 3 and 5: what is drawn *)

(** The offsets of a square of side [2 * s + 1] around (0, 0), row by row. *)
Definition square (s : Z) : list (Z * Z) :=
  JS.range (- s) (s + 1) ≫= (fun y => (fun x => (x, y)) <$> JS.range (- s) (s + 1)).

(** The offsets version 3 draws at: the square of side 3, once per pass. *)
Definition v3_offsets (passes : Z) : list (Z * Z) :=
  JS.range 1 (passes + 1) ≫= (fun _ => square 1).

Lemma length_bind_const {A B} (f : A -> list B) (l : list A) (k : nat) :
  (forall a, length (f a) = k) -> length (l ≫= f) = (length l * k)%nat.
Proof.
  intros Hf. induction l as [|a l IH]; [done|].
  rewrite bind_cons, length_app, IH, Hf. simpl. lia.
Qed.

Lemma length_range lo hi : length (JS.range lo hi) = Z.to_nat (hi - lo).
Proof. unfold JS.range. apply length_seqZ. Qed.

Lemma length_square s :
  length (square s) = (Z.to_nat (2 * s + 1) * Z.to_nat (2 * s + 1))%nat.
Proof.
  unfold square.
  rewrite (length_bind_const _ _ (Z.to_nat (2 * s + 1))).
  - rewrite length_range. f_equal; lia.
  - intros y. rewrite length_fmap, length_range. lia.
Qed.

Section Native_draws.

Context {Bitmap Settings : Type}.
Variable compose : JS.number -> Settings -> Z -> Z -> Bitmap -> Bitmap.

(** The canvas drawn onto itself at each offset of [offs] in turn, under
    the alpha [a] and the settings [st]. *)
Definition draws (a : JS.number) (st : Settings) (b : Bitmap) (offs : list (Z * Z))
  : Bitmap :=
  foldl (fun b p => compose a st (fst p) (snd p) b) b offs.

Lemma loop_drawImage_row xs y (ctx : Native.Context Bitmap Settings) :
  Native.loop xs (fun x => Native.drawImage compose x y) ctx
  = Native.mkContext _ _ (Native.globalAlpha ctx) (Native.settings ctx)
      (draws (Native.globalAlpha ctx) (Native.settings ctx) (Native.bitmap ctx)
         ((fun x => (x, y)) <$> xs)).
Proof.
  unfold Native.loop, draws. revert ctx.
  induction xs as [|x xs IH]; intros ctx; [by destruct ctx|].
  rewrite fmap_cons. cbn [foldl]. rewrite IH. reflexivity.
Qed.

Lemma loop_drawImage_grid xs ys (ctx : Native.Context Bitmap Settings) :
  Native.loop ys (fun y => Native.loop xs (fun x => Native.drawImage compose x y)) ctx
  = Native.mkContext _ _ (Native.globalAlpha ctx) (Native.settings ctx)
      (draws (Native.globalAlpha ctx) (Native.settings ctx) (Native.bitmap ctx)
         (ys ≫= (fun y => (fun x => (x, y)) <$> xs))).
Proof.
  revert ctx. induction ys as [|y ys IH]; intros ctx; [by destruct ctx|].
  unfold Native.loop in *. cbn [foldl]. rewrite IH.
  fold (Native.loop xs (fun x => Native.drawImage compose x y) ctx).
  rewrite loop_drawImage_row.
  cbn [Native.globalAlpha Native.settings Native.bitmap].
  rewrite bind_cons. unfold draws. by rewrite foldl_app.
Qed.

Lemma loop_passes (ks : list Z) offs (ctx : Native.Context Bitmap Settings) :
  Native.loop ks (fun _ ctx =>
    Native.mkContext _ _ (Native.globalAlpha ctx) (Native.settings ctx)
      (draws (Native.globalAlpha ctx) (Native.settings ctx) (Native.bitmap ctx) offs)) ctx
  = Native.mkContext _ _ (Native.globalAlpha ctx) (Native.settings ctx)
      (draws (Native.globalAlpha ctx) (Native.settings ctx) (Native.bitmap ctx)
         (ks ≫= (fun _ => offs))).
Proof.
  unfold Native.loop. revert ctx.
  induction ks as [|k ks IH]; intros ctx; [by destruct ctx|].
  cbn [foldl]. rewrite IH.
  cbn [Native.globalAlpha Native.settings Native.bitmap].
  rewrite bind_cons. unfold draws. by rewrite foldl_app.
Qed.

Lemma Native_loop_ext {S} (body body' : Z -> S -> S) xs (s : S) :
  (forall x s, body x s = body' x s) ->
  Native.loop xs body s = Native.loop xs body' s.
Proof.
  intros Hext. unfold Native.loop. revert s.
  induction xs as [|x xs IH]; intros s; [done|].
  cbn [foldl]. by rewrite Hext, IH.
Qed.

(** X14.  [blur] of version 3 draws the canvas onto itself nine times per
    pass, at the offsets of the 3x3 square (the offset (0, 0) included),
    every time with [globalAlpha] 0.125 and the settings the context had
    on entry; with no pass to run nothing is drawn. *)
Theorem v3_blur_draws (ctx : Native.Context Bitmap Settings) (passes : Z) :
  Native.bitmap (V3.blur compose ctx passes)
  = draws (JS.Fin (1 # 8)) (Native.settings ctx) (Native.bitmap ctx) (v3_offsets passes)
  /\ length (v3_offsets passes) = Z.to_nat (9 * passes)
  /\ v3_offsets 1
     = [(-1, -1); (0, -1); (1, -1); (-1, 0); (0, 0); (1, 0); (-1, 1); (0, 1); (1, 1)].
Proof.
  split; [|split; [|reflexivity]].
  - unfold V3.blur. cbn [Native.bitmap Native.set_globalAlpha].
    rewrite (Native_loop_ext _
               (fun _ ctx =>
                  Native.mkContext _ _ (Native.globalAlpha ctx) (Native.settings ctx)
                    (draws (Native.globalAlpha ctx) (Native.settings ctx)
                       (Native.bitmap ctx) (square 1))))
      by (intros i c; apply loop_drawImage_grid).
    by rewrite loop_passes.
  - unfold v3_offsets. rewrite (length_bind_const _ _ 9) by done.
    rewrite length_range. lia.
Qed.

(** X15.  [blur] of version 5 draws the canvas onto itself once for each
    offset of the square of side [2 * strength + 1], row by row, every
    time with [globalAlpha] 0.5 and the settings the context had on entry;
    for a negative strength nothing is drawn. *)
Theorem v5_blur_draws (ctx : Native.Context Bitmap Settings) (strength : Z) :
  Native.bitmap (V5.blur compose ctx strength)
  = draws (JS.Fin (1 # 2)) (Native.settings ctx) (Native.bitmap ctx) (square strength)
  /\ length (square strength)
     = (Z.to_nat (2 * strength + 1) * Z.to_nat (2 * strength + 1))%nat
  /\ square 1
     = [(-1, -1); (0, -1); (1, -1); (-1, 0); (0, 0); (1, 0); (-1, 1); (0, 1); (1, 1)].
Proof.
  split; [|split; [apply length_square|reflexivity]].
  unfold V5.blur. cbn [Native.bitmap Native.set_globalAlpha].
  by rewrite loop_drawImage_grid.
Qed.

End Native_draws.

(** ** Version 1: more on single pixels and on [flipHorizontal] *)

(** X16.  On an image whose buffer has [4 * w * h] bytes, the pairs with
    [y = height] are not refused: [getPixel] returns an array of four
    [undefined] for them, not [false], and [setPixel] returns [undefined]
    and stores nothing. *)
Theorem pixel_at_height (w h : Z) (d : list Z) (x : Z) (pixelValues : list JS.value) :
  Z.of_nat (length d) = 4 * w * h -> 0 <= x <= w -> 0 <= h ->
  V1.CanvasImageData.getPixel (wrap w h d) x h
  = JS.Normal (V1.JArray [JS.Undefined; JS.Undefined; JS.Undefined; JS.Undefined])
  /\ V1.CanvasImageData.setPixel (wrap w h d) x h pixelValues
     = JS.Normal (JS.Undefined, wrap w h d).
Proof.
  intros Hlen Hx Hh.
  assert (~ refused (wrap w h d) x h) as Hacc by (unfold refused; simpl; lia).
  assert (Z.of_nat (length d) <= h * w * 4 + x * 4) as Hpast by nia.
  split.
  - rewrite getPixel_accepted by done. unfold Canvas.pixel_at, wrap.
    cbn [V1.CanvasImageData.new V1.CanvasImageData.width
         V1.CanvasImageData.imageData Canvas.data Canvas.width].
    assert (forall i, Z.of_nat (length d) <= i -> JS.get d i = JS.Undefined) as Hout.
    { intros i Hi. unfold JS.get. rewrite decide_False by lia.
      by rewrite lookup_ge_None_2 by lia. }
    by rewrite !Hout by lia.
  - rewrite setPixel_wrap by done. do 3 f_equal.
    assert (forall i v, Z.of_nat (length d) <= i -> JS.set d i v = d) as Hout.
    { intros i v Hi. unfold JS.set. rewrite decide_False by lia.
      apply list_insert_ge. lia. }
    unfold store4. cbn [fst snd]. by rewrite !Hout by lia.
Qed.

Lemma pixel_at_height_witness :
  V1.CanvasImageData.getPixel (wrap 1 1 [10; 20; 30; 40]) 0 1
  = JS.Normal (V1.JArray [JS.Undefined; JS.Undefined; JS.Undefined; JS.Undefined])
  /\ V1.CanvasImageData.setPixel (wrap 1 1 [10; 20; 30; 40]) 0 1 [JS.Num (JS.of_Z 7)]
     = JS.Normal (JS.Undefined, wrap 1 1 [10; 20; 30; 40]).
Proof.
  apply (pixel_at_height 1 1 [10; 20; 30; 40] 0); [reflexivity|lia|lia].
Defined.

(** X17.  [flipHorizontal] keeps the size of the image: the result has the
    same width and height, its buffer has again [4 * w * h] bytes, all of
    them bytes of the original image, and the canvas shows that buffer. *)
Theorem flipHorizontal_keeps_shape (w h : Z) (pixels : list Z) :
  1 <= w -> 1 <= h ->
  Z.of_nat (length pixels) = 4 * w * h -> Forall is_byte pixels ->
  exists d,
    V1.CanvasImage.flipHorizontal (V1.CanvasImage.new w h pixels)
    = JS.Normal (V1.CanvasImage.new w h d)
    /\ Z.of_nat (length d) = 4 * w * h
    /\ Forall (fun b => b ∈ pixels) d.
Proof.
  intros Hw Hh Hlen Hb. exists (flip_data w h pixels).
  split; [by apply flipHorizontal_flip_data|].
  split; [rewrite length_flip_data; lia|].
  apply Forall_lookup. intros i b Hi.
  assert (Z.of_nat i < 4 * w * h) as Hlt.
  { apply lookup_lt_Some in Hi. rewrite length_flip_data in Hi. lia. }
  destruct (index_decompose w h i Hw Hlt) as (x & y & c & Hx & Hy & Hc & ->).
  replace x with (w - 1 - (w - 1 - x)) in Hi by lia.
  rewrite flip_data_lookup in Hi by (done || lia).
  by apply list_elem_of_lookup_2 in Hi.
Qed.

Lemma flipHorizontal_keeps_shape_witness :
  exists d,
    V1.CanvasImage.flipHorizontal
      (V1.CanvasImage.new 2 1 [1; 2; 3; 4; 5; 6; 7; 8])
    = JS.Normal (V1.CanvasImage.new 2 1 d)
    /\ Z.of_nat (length d) = 4 * 2 * 1
    /\ Forall (fun b => b ∈ [1; 2; 3; 4; 5; 6; 7; 8]) d.
Proof.
  apply (flipHorizontal_keeps_shape 2 1); [lia|lia|reflexivity|].
  unfold is_byte. repeat (apply Forall_cons; split; [lia|]). apply Forall_nil_2.
Defined.
